(** * A shallow embedding of the document question-answering front end

    The development follows the TypeScript sources of the web client:
    - [lib/api.ts]: the [APIClient] talking to the HTTP back end,
    - [components/ChatInterface.tsx]: the chat form and its streaming loop,
    - [components/DocumentUploader.tsx]: the upload form,
    - [components/DocumentManager.tsx]: the document selection,
    and adds, for the Python back end whose modules are not part of the
    sources at hand, definitions modelled from the written specification. *)

From Stdlib Require Import NArith ZArith QArith Lia.
From Stdlib.Strings Require Import Ascii String Byte.
From Stdlib Require DecimalString.
From stdpp Require Import base tactics option list sorting gmap.

Local Open Scope N_scope.
Set Warnings "-register-all".
Local Open Scope list_scope.

(* ===================================================================== *)
(** * JavaScript values *)
(* ===================================================================== *)

Module JS.

(** A JavaScript string is a sequence of UTF-16 code units. *)
Definition jsstring : Type := list N.

(** String literals of the sources that are pure ASCII. *)
Definition lit (s : string) : jsstring :=
  map N_of_ascii (list_ascii_of_string s).

Global Arguments lit : simpl never.

(** The line feed of ['\n']. *)
Definition LF : N := 10.
(** The full stop of ['.']. *)
Definition DOT : N := 46.

(** A value produced by [JSON.parse].  A number is kept as the text that
    [String(n)] gives for it: the client only ever coerces numbers to
    strings or to booleans, and [-0] as well as [0] print as ["0"]. *)
Inductive json : Type :=
| JNull
| JBool (b : bool)
| JNum (repr : jsstring)
| JStr (s : jsstring)
| JArr (items : list json)
| JObj (props : list (jsstring * json)).

(** A JavaScript value as the client sees it: [None] is [undefined]. *)
Definition value : Type := option json.

(** [ToBoolean]: what [!x] and [x || y] test. *)
Definition truthy (v : value) : bool :=
  match v with
  | None => false
  | Some JNull => false
  | Some (JBool b) => b
  | Some (JNum repr) => negb (bool_decide (repr = lit "0"))
  | Some (JStr s) => negb (bool_decide (s = []))
  | Some (JArr _) => true
  | Some (JObj _) => true
  end.

(** [a || b]. *)
Definition js_or (a b : value) : value := if truthy a then a else b.

(** Exceptions: every value thrown in this program is an [Error] object
    (or one of its subclasses raised by the host). *)
Record exn : Type := mkExn { exn_name : jsstring; message : jsstring }.

(** [new Error(msg)] for a message that is a string. *)
Definition Error (msg : jsstring) : exn := mkExn (lit "Error") msg.

(** A computation that returns or throws. *)
Inductive result (A : Type) : Type :=
| Ok (a : A)
| Throw (e : exn).
Arguments Ok {A} a.
Arguments Throw {A} e.

(** Sequencing of computations that may throw. *)
Definition and_then {A B : Type} (r : result A) (k : A -> result B) : result B :=
  match r with
  | Ok a => k a
  | Throw e => Throw e
  end.

(** [v === 'literal']: strict equality with a string. *)
Definition is_string (s : jsstring) (v : option json) : bool :=
  match v with
  | Some (JStr t) => bool_decide (t = s)
  | _ => false
  end.

(** Own properties of an object, first binding of the key. *)
Fixpoint own_property (key : jsstring) (props : list (jsstring * json)) : value :=
  match props with
  | [] => None
  | (k, v) :: rest => if bool_decide (k = key) then Some v else own_property key rest
  end.

(** [str.split(sep)] for a separator of one code unit: the segments
    between the separators, never an empty array. *)
Fixpoint split (sep : N) (s : jsstring) : list jsstring :=
  match s with
  | [] => [[]]
  | c :: s' =>
      if c =? sep then [] :: split sep s'
      else match split sep s' with
           | seg :: segs => (c :: seg) :: segs
           | [] => [[c]]
           end
  end.

(** [arr.pop()]: the array without its last element, and that element
    ([undefined] on an empty array). *)
Fixpoint pop {A : Type} (l : list A) : list A * option A :=
  match l with
  | [] => ([], None)
  | [x] => ([], Some x)
  | x :: rest => let '(init, lst) := pop rest in (x :: init, lst)
  end.

(** [str.startsWith(p)]. *)
Fixpoint startsWith (p s : jsstring) : bool :=
  match p, s with
  | [], _ => true
  | a :: p', b :: s' => (a =? b) && startsWith p' s'
  | _ :: _, [] => false
  end.

(** [str.slice(n)] for [n >= 0]. *)
Definition slice_from (n : nat) (s : jsstring) : jsstring := drop n s.

(** [arr.join(sep)] on an array of strings. *)
Fixpoint join (sep : jsstring) (l : list jsstring) : jsstring :=
  match l with
  | [] => []
  | [x] => x
  | x :: rest => x ++ sep ++ join sep rest
  end.

(** White space and line terminators, the code units [trim] strips. *)
Definition is_whitespace (c : N) : bool :=
  (c =? 0x09) || (c =? 0x0A) || (c =? 0x0B) || (c =? 0x0C) || (c =? 0x0D)
  || (c =? 0x20) || (c =? 0xA0) || (c =? 0x1680)
  || ((0x2000 <=? c) && (c <=? 0x200A))
  || (c =? 0x2028) || (c =? 0x2029) || (c =? 0x202F) || (c =? 0x205F)
  || (c =? 0x3000) || (c =? 0xFEFF).

Fixpoint trimStart (s : jsstring) : jsstring :=
  match s with
  | [] => []
  | c :: s' => if is_whitespace c then trimStart s' else s
  end.

(** [str.trim()]. *)
Definition trim (s : jsstring) : jsstring :=
  rev (trimStart (rev (trimStart s))).

(** The services of the host (browser and engine) the client calls. *)
Class Platform : Type := {
  (** [String.prototype.toLowerCase] *)
  toLowerCase : jsstring -> jsstring;
  (** [encodeURIComponent], which throws a [URIError] on a lone surrogate *)
  encodeURIComponent : jsstring -> result jsstring;
  (** [JSON.parse], which throws a [SyntaxError] on malformed text *)
  JSON_parse : jsstring -> result json;
  (** [JSON.stringify] on a value free of [undefined] *)
  JSON_stringify : json -> jsstring;
  (** [TextDecoder] in streaming mode: a transducer that reads one byte
      at a time and keeps the bytes of an unfinished character in its state *)
  decoder_state : Type;
  new_TextDecoder : decoder_state;
  decode_byte : decoder_state -> byte -> decoder_state * jsstring;
  (** the [TypeError] raised on reading a property of [null] *)
  null_property_error : jsstring -> exn;
  (** the [TypeError] raised when an object has no primitive value *)
  primitive_error : exn;
}.

(** [ToString] of ECMAScript, used by [+=] on strings, by template
    literals and by [new Error(x)].  An array prints as its items joined
    by commas, a [null] item as the empty string.  An object is asked for
    its [toString], then for its [valueOf]: a parsed object inherits
    both from [Object.prototype], the first of which gives
    ["[object Object]"]; but an own property [toString], which in parsed
    JSON is never a function, hides the inherited one, the inherited
    [valueOf] gives back the object itself, and an own [valueOf] is no
    function either, so that the conversion throws a [TypeError].  The
    same holds for the order [valueOf], [toString] that [+] follows. *)
Fixpoint ToString `{Platform} (v : json) : result jsstring :=
  match v with
  | JNull => Ok (lit "null")
  | JBool true => Ok (lit "true")
  | JBool false => Ok (lit "false")
  | JNum repr => Ok repr
  | JStr s => Ok s
  | JArr items =>
      (fix join (l : list json) : result jsstring :=
         match l with
         | [] => Ok []
         | x :: rest =>
             and_then (match x with JNull => Ok [] | _ => ToString x end) (fun here =>
             match rest with
             | [] => Ok here
             | _ :: _ => and_then (join rest) (fun more => Ok (here ++ lit "," ++ more))
             end)
         end) items
  | JObj props =>
      match own_property (lit "toString") props with
      | Some _ => Throw primitive_error
      | None => Ok (lit "[object Object]")
      end
  end.

Definition ToString_value `{Platform} (v : value) : result jsstring :=
  match v with
  | None => Ok (lit "undefined")
  | Some j => ToString j
  end.

(** [new Error(x)]: the message is [ToString(x)] unless [x] is
    [undefined], in which case it is the empty string of the prototype;
    the conversion of the message may throw. *)
Definition new_Error `{Platform} (x : value) : result exn :=
  match x with
  | None => Ok (Error [])
  | Some j => and_then (ToString j) (fun msg => Ok (Error msg))
  end.

(** [v.key] on a parsed JSON value.  The keys read by the client are
    plain data keys: none of them is [length], an index or a method of a
    prototype, so they are [undefined] on strings, numbers, booleans
    and arrays. *)
Definition get `{Platform} (v : json) (key : jsstring) : result value :=
  match v with
  | JNull => Throw (null_property_error key)
  | JObj props => Ok (own_property key props)
  | _ => Ok None
  end.

(** [decoder.decode(value, { stream: true })]. *)
Fixpoint decode `{Platform} (st : decoder_state) (bytes : list byte)
  : decoder_state * jsstring :=
  match bytes with
  | [] => (st, [])
  | b :: rest =>
      let '(st1, out1) := decode_byte st b in
      let '(st2, out2) := decode st1 rest in
      (st2, out1 ++ out2)
  end.

End JS.

(* ===================================================================== *)
(** * The HTTP layer the client runs against *)
(* ===================================================================== *)

Module Http.
Import JS.

Inductive method : Type := GET | POST | DELETE.

(** A [File] of the browser: its name and its content. *)
Record File : Type := { name : jsstring; content_bytes : list byte }.

(** The body handed to [fetch]: nothing, a text, or a [FormData]. *)
Inductive body : Type :=
| NoBody
| TextBody (text : jsstring)
| FormBody (fields : list (jsstring * File)).

Record Request : Type := {
  url : jsstring;
  meth : method;
  headers : list (jsstring * jsstring);
  req_body : body;
}.

(** The successive results of [reader.read()] on a response body: a
    chunk of bytes, the end of the stream, or a rejected read. *)
Inductive body_stream : Type :=
| Done
| Chunk (value : list byte) (rest : body_stream)
| Broken (e : exn).

Record Response : Type := {
  ok : bool;
  (** what [await response.json()] gives *)
  json_ : result json;
  (** [response.body], absent on some responses *)
  body_ : option body_stream;
}.

(** The network: the outcome of [fetch] for a request, given the
    requests made before it.  A rejected [fetch] throws. *)
Definition Net : Type := list Request -> Request -> result Response.

(** Client code runs against a network and records the requests it makes. *)
Definition IO (A : Type) : Type := Net -> list Request -> result A * list Request.

Definition ret {A} (a : A) : IO A := fun _ log => (Ok a, log).
Definition throw {A} (e : exn) : IO A := fun _ log => (Throw e, log).
Definition bind {A B} (c : IO A) (k : A -> IO B) : IO B :=
  fun net log =>
    match c net log with
    | (Ok a, log') => k a net log'
    | (Throw e, log') => (Throw e, log')
    end.
(** [await p] for a promise that is already settled. *)
Definition await {A} (r : result A) : IO A := fun _ log => (r, log).
(** [try { c } catch (e) { ... }] seen from outside: the outcome of [c]. *)
Definition attempt {A} (c : IO A) : IO (result A) :=
  fun net log => let '(r, log') := c net log in (Ok r, log').

Definition fetch (req : Request) : IO Response :=
  fun net log => (net log req, log ++ [req]).

End Http.

Declare Scope io_scope.
Delimit Scope io_scope with io.
Notation "x <- c ;; k" := (Http.bind c (fun x => k))
  (at level 100, c at next level, right associativity) : io_scope.

(* ===================================================================== *)
(** * [lib/api.ts]: the API client *)
(* ===================================================================== *)

Module Api.
Import JS Http.
Local Open Scope io_scope.

(** [process.env.NEXT_PUBLIC_API_URL || 'http://localhost:8000'] *)
Definition API_BASE_URL (env : option jsstring) : jsstring :=
  match env with
  | Some u => if bool_decide (u = []) then lit "http://localhost:8000" else u
  | None => lit "http://localhost:8000"
  end.

Record QueryRequest : Type := {
  query_ : jsstring;
  top_k : option N;
  filename : option jsstring;
  stream : option bool;
}.

(** A decimal numeral, as [JSON.stringify] prints a small integer. *)
Definition digits (n : N) : jsstring :=
  lit (DecimalString.NilZero.string_of_uint (N.to_uint n)).

(** The object [JSON.stringify] serialises for a [QueryRequest]: the
    properties in the order of the object literal, those that are
    [undefined] left out. *)
Definition QueryRequest_json (r : QueryRequest) : json :=
  JObj ([(lit "query", JStr (query_ r))]
        ++ match top_k r with Some k => [(lit "top_k", JNum (digits k))] | None => [] end
        ++ match filename r with Some f => [(lit "filename", JStr f)] | None => [] end
        ++ match stream r with Some b => [(lit "stream", JBool b)] | None => [] end).

Record APIClient : Type := { baseURL : jsstring }.

(** The values an async generator hands to its consumer: the values it
    yields, then its return or the exception it throws. *)
Inductive gen : Type :=
| GDone
| GYield (data : json) (rest : gen)
| GThrow (e : exn).

Section Client.
Context `{Platform}.
Variable this : APIClient.

(** The shared tail of the operations on a response that is not ok:
    [const error = await response.json(); throw new Error(error.detail || fallback)] *)
Definition fail_with {A} (response : Response) (fallback : string) : IO A :=
  error <- await (json_ response) ;;
  detail <- await (get error (lit "detail")) ;;
  raised <- await (new_Error (js_or detail (Some (JStr (lit fallback))))) ;;
  throw raised.

Definition uploadDocument (file : File) : IO json :=
  let formData := [(lit "file", file)] in
  response <- fetch {| url := baseURL this ++ lit "/upload";
                       meth := POST;
                       headers := [];
                       req_body := FormBody formData |} ;;
  if negb (ok response) then fail_with response "Upload failed"
  else await (json_ response).

Definition query (request : QueryRequest) : IO json :=
  response <- fetch {| url := baseURL this ++ lit "/query";
                       meth := POST;
                       headers := [(lit "Content-Type", lit "application/json")];
                       req_body := TextBody (JSON_stringify (QueryRequest_json request)) |} ;;
  if negb (ok response) then fail_with response "Query failed"
  else await (json_ response).

(** [for (const line of lines) if (line.startsWith('data: ')) yield JSON.parse(line.slice(6))],
    followed by what the generator does next. *)
Fixpoint yield_lines (lines : list jsstring) (next : gen) : gen :=
  match lines with
  | [] => next
  | line :: rest =>
      if startsWith (lit "data: ") line then
        match JSON_parse (slice_from 6 line) with
        | Ok data => GYield data (yield_lines rest next)
        | Throw e => GThrow e
        end
      else yield_lines rest next
  end.

(** The [while (true)] loop of [queryStream]. *)
Fixpoint read_loop (decoder : decoder_state) (buffer : jsstring) (reader : body_stream) : gen :=
  match reader with
  | Done => GDone
  | Broken e => GThrow e
  | Chunk value rest =>
      let '(decoder, text) := decode decoder value in
      let buffer := buffer ++ text in
      let '(lines, last) := pop (split LF buffer) in
      let buffer := match js_or (JStr <$> last) (Some (JStr [])) with
                    | Some (JStr s) => s
                    | _ => []
                    end in
      yield_lines lines (read_loop decoder buffer rest)
  end.

(** [queryStream]: nothing runs before the consumer asks for the first
    value; the request and the checks then come before the loop. *)
Definition queryStream (request : QueryRequest) : IO gen :=
  response <- fetch {| url := baseURL this ++ lit "/query/stream";
                       meth := POST;
                       headers := [(lit "Content-Type", lit "application/json")];
                       req_body := TextBody (JSON_stringify (QueryRequest_json request)) |} ;;
  if negb (ok response) then fail_with response "Query failed"
  else
    match body_ response with
    | None => throw (Error (lit "No response body"))
    | Some reader => ret (read_loop new_TextDecoder [] reader)
    end.

Definition listDocuments : IO json :=
  response <- fetch {| url := baseURL this ++ lit "/documents";
                       meth := GET; headers := []; req_body := NoBody |} ;;
  if negb (ok response) then fail_with response "Failed to list documents"
  else await (json_ response).

Definition deleteDocument (filename : jsstring) : IO json :=
  encoded <- await (encodeURIComponent filename) ;;
  response <- fetch {| url := baseURL this ++ lit "/documents/" ++ encoded;
                       meth := DELETE; headers := []; req_body := NoBody |} ;;
  if negb (ok response) then fail_with response "Failed to delete document"
  else await (json_ response).

Definition healthCheck : IO json :=
  response <- fetch {| url := baseURL this ++ lit "/";
                       meth := GET; headers := []; req_body := NoBody |} ;;
  await (json_ response).

End Client.

(** [export const apiClient = new APIClient()] *)
Definition apiClient (env : option jsstring) : APIClient :=
  {| baseURL := API_BASE_URL env |}.

End Api.

(* ===================================================================== *)
(** * [components/ChatInterface.tsx] *)
(* ===================================================================== *)

Module Chat.
Import JS Http Api.
Local Open Scope io_scope.

Inductive role : Type := user | assistant.

Record Message : Type := {
  role_ : role;
  content : jsstring;
  sources : value;
}.

(** The [let] variables of one run of [handleSubmit]. *)
Record Locals : Type := { fullAnswer : jsstring; sources_ : value }.

Definition fresh_locals : Locals :=
  {| fullAnswer := []; sources_ := Some (JArr []) |}.

(** The functions handed to [setMessages].  React keeps such a
    function and calls it when it computes the next state, at once or
    at its next rendering; the function of the streaming loop reads the
    variables [fullAnswer] and [sources] of [handleSubmit] at the moment
    it is called. *)
Inductive updater : Type :=
| Append (m : Message)        (* [prev => [...prev, m]] *)
| ShowAnswer                  (* the function of the streaming loop *)
| ReplaceLast (m : Message).  (* [prev => [...prev.slice(0, -1), m]] *)

(** [newMessages[newMessages.length - 1] = m] on a copy of the array;
    on an empty array the assignment adds no element. *)
Definition set_last (m : Message) (prev : list Message) : list Message :=
  <[(length prev - 1)%nat := m]> prev.

(** [prev.slice(0, -1)] *)
Definition slice_but_last (prev : list Message) : list Message :=
  take (length prev - 1)%nat prev.

(** The call of an updater, with the variables as they are at the call. *)
Definition call (loc : Locals) (u : updater) (prev : list Message) : list Message :=
  match u with
  | Append m => prev ++ [m]
  | ShowAnswer =>
      set_last {| role_ := assistant;
                  content := fullAnswer loc;
                  sources := sources_ loc |} prev
  | ReplaceLast m => slice_but_last prev ++ [m]
  end.

(** The three [useState] cells of the component, and the updaters of
    [messages] that React has yet to call.  [setInput] and
    [setIsLoading] are given plain values, not functions: the moment of
    their evaluation does not matter. *)
Record ChatState : Type := {
  messages : list Message;
  input : jsstring;
  isLoading : bool;
  pending : list updater;
}.

Definition setMessages (u : updater) (st : ChatState) : ChatState :=
  {| messages := messages st; input := input st; isLoading := isLoading st;
     pending := pending st ++ [u] |}.
Definition setInput (s : jsstring) (st : ChatState) : ChatState :=
  {| messages := messages st; input := s; isLoading := isLoading st;
     pending := pending st |}.
Definition setIsLoading (b : bool) (st : ChatState) : ChatState :=
  {| messages := messages st; input := input st; isLoading := b;
     pending := pending st |}.

(** React computes the next state: the pending updaters are called in
    the order of their registration. *)
Definition render (loc : Locals) (st : ChatState) : ChatState :=
  {| messages := foldl (fun prev u => call loc u prev) (messages st) (pending st);
     input := input st; isLoading := isLoading st; pending := [] |}.

Definition initial : ChatState :=
  {| messages := []; input := []; isLoading := false; pending := [] |}.

(** The warning sign and its variation selector, then [" Error: "]. *)
Definition error_prefix : jsstring := [0x26A0; 0xFE0F] ++ lit " Error: ".

Section Component.
Context `{Platform}.
Variable apiClient : APIClient.
Variable selectedDocument : option jsstring.

(** [if (!input.trim() || isLoading) return;] *)
Definition blocked (st : ChatState) : bool :=
  negb (truthy (Some (JStr (trim (input st))))) || isLoading st.

(** The statements of [handleSubmit] before the stream is read.  They
    run inside the submit event, and React renders their updates when
    the handler gives the control back at its first [await]. *)
Definition begin (st : ChatState) : ChatState :=
  let userMessage := {| role_ := user; content := input st; sources := None |} in
  let st := setMessages (Append userMessage) st in
  let st := setInput [] st in
  let st := setIsLoading true st in
  let st := setMessages
              (Append {| role_ := assistant; content := []; sources := Some (JArr []) |})
              st in
  render fresh_locals st.

(** The argument of [apiClient.queryStream]. *)
Definition stream_query (st : ChatState) : QueryRequest :=
  {| query_ := input st;
     top_k := Some 5;
     filename := selectedDocument;
     stream := Some true |}.

(** The body of [for await (const data of streamGen)]. *)
Definition on_data (data : json) (loc : Locals) (st : ChatState)
  : result (Locals * ChatState) :=
  and_then (get data (lit "type")) (fun type =>
  if is_string (lit "sources") type then
    and_then (get data (lit "sources")) (fun srcs =>
    Ok ({| fullAnswer := fullAnswer loc; sources_ := srcs |}, st))
  else if is_string (lit "chunk") type then
    and_then (get data (lit "content")) (fun c =>
    and_then (ToString_value c) (fun text =>
    Ok ({| fullAnswer := fullAnswer loc ++ text; sources_ := sources_ loc |},
        setMessages ShowAnswer st)))
  else if is_string (lit "error") type then
    and_then (get data (lit "message")) (fun msg =>
    and_then (new_Error msg) (fun raised => Throw raised))
  else Ok (loc, st)).

(** The [catch] block. *)
Definition on_catch (error : exn) (st : ChatState) : ChatState :=
  setMessages (ReplaceLast {| role_ := assistant;
                              content := error_prefix ++ message error;
                              sources := Some (JArr []) |}) st.

(** The [finally] block. *)
Definition on_finally (st : ChatState) : ChatState := setIsLoading false st.

(** The [for await] loop.  [renders] says, for each value of the
    stream in turn, whether React renders before the next one is
    handled.  The loop leaves a state, the variables, and the exception
    that ended it, if any. *)
Fixpoint for_await (renders : list bool) (streamGen : gen) (loc : Locals) (st : ChatState)
  : ChatState * Locals * option exn :=
  match streamGen with
  | GDone => (st, loc, None)
  | GThrow e => (st, loc, Some e)
  | GYield data rest =>
      match on_data data loc st with
      | Ok (loc', st') =>
          let st' := if hd false renders then render loc' st' else st' in
          for_await (tl renders) rest loc' st'
      | Throw e => (st, loc, Some e)
      end
  end.

(** [handleSubmit], run to completion, the last rendering included.
    The generator starts, and the request goes out, when the loop asks
    for its first value. *)
Definition handleSubmit (renders : list bool) (st : ChatState) : IO ChatState :=
  if blocked st then ret st
  else
    let request := stream_query st in
    let st := begin st in
    started <- attempt (queryStream apiClient request) ;;
    let '(st, loc, thrown) :=
      match started with
      | Ok streamGen => for_await renders streamGen fresh_locals st
      | Throw e => (st, fresh_locals, Some e)
      end in
    let st := match thrown with
              | Some error => on_catch error st
              | None => st
              end in
    ret (render loc (on_finally st)).

(** ** The component between events

    While the answer streams in, the page stays live: an event of the
    user or a rendering can come between two values of the stream.
    [running] holds the variables of the run of [handleSubmit] that is
    under way and what its generator has still to deliver. *)
Record Session : Type := {
  ui : ChatState;
  running : option (Locals * gen);
  sent : list Request;
}.

Inductive action : Type :=
| Change (text : jsstring)   (* [onChange] of the input *)
| Submit                     (* [onSubmit] of the form *)
| Tick                       (* the generator settles its next value *)
| Render.                    (* React renders *)

Definition start : Session :=
  {| ui := initial; running := None; sent := [] |}.

(** The end of a run: the [catch] block if an exception ended it, the
    [finally] block, and the rendering that shows the form enabled again. *)
Definition finish (thrown : option exn) (loc : Locals) (st : ChatState) : ChatState :=
  let st := match thrown with
            | Some error => on_catch error st
            | None => st
            end in
  render loc (on_finally st).

Definition step (net : Net) (s : Session) (a : action) : Session :=
  match a with
  | Change text =>
      {| ui := setInput text (ui s); running := running s; sent := sent s |}
  | Submit =>
      if blocked (ui s) then s
      else
        let '(started, sent') :=
          attempt (queryStream apiClient (stream_query (ui s))) net (sent s) in
        let streamGen := match started with
                         | Ok (Ok g) => g
                         | Ok (Throw e) | Throw e => GThrow e
                         end in
        {| ui := begin (ui s);
           running := Some (fresh_locals, streamGen);
           sent := sent' |}
  | Tick =>
      match running s with
      | None => s
      | Some (loc, GDone) =>
          {| ui := finish None loc (ui s); running := None; sent := sent s |}
      | Some (loc, GThrow e) =>
          {| ui := finish (Some e) loc (ui s); running := None; sent := sent s |}
      | Some (loc, GYield data rest) =>
          match on_data data loc (ui s) with
          | Ok (loc', st') =>
              {| ui := st'; running := Some (loc', rest); sent := sent s |}
          | Throw e =>
              {| ui := finish (Some e) loc (ui s); running := None; sent := sent s |}
          end
      end
  | Render =>
      match running s with
      | Some (loc, _) => {| ui := render loc (ui s); running := running s; sent := sent s |}
      | None => {| ui := render fresh_locals (ui s); running := None; sent := sent s |}
      end
  end.

Definition run (net : Net) (s : Session) (acts : list action) : Session :=
  foldl (step net) s acts.

Definition reachable (net : Net) (s : Session) : Prop :=
  exists acts, s = run net start acts.

(** The events of one run of [handleSubmit]: the submission, then the
    values of the stream, each followed by a rendering or not. *)
Fixpoint arrivals (renders : list bool) (values : nat) : list action :=
  match values with
  | O => [Tick]
  | S values =>
      Tick :: (if hd false renders then [Render] else []) ++ arrivals (tl renders) values
  end.

End Component.
End Chat.

(* ===================================================================== *)
(** * [components/DocumentManager.tsx] *)
(* ===================================================================== *)

Module Manager.
Import JS.

(** [handleSelect]: a click on the selected document clears the
    selection, a click on another one selects it.  The result is both
    the new [selectedDoc] and the argument of [onDocumentSelect]. *)
Definition handleSelect (selectedDoc : option jsstring) (filename : jsstring)
  : option jsstring :=
  if bool_decide (selectedDoc = Some filename) then None else Some filename.

Import Http Api.
Local Open Scope io_scope.

(** The three [useState] cells of the component, and what it has done
    to the outside: the errors written to the console, the alerts shown,
    and the calls of [onDocumentSelect].  [documents] holds what the
    server sent, an array if the server keeps to its interface. *)
Record ManagerState : Type := {
  documents : value;
  loading : bool;
  selectedDoc : option jsstring;
  console_errors : list exn;
  alerts : list jsstring;
  notified : list (option jsstring);
}.

Definition setDocuments (docs : value) (st : ManagerState) : ManagerState :=
  {| documents := docs; loading := loading st; selectedDoc := selectedDoc st;
     console_errors := console_errors st; alerts := alerts st; notified := notified st |}.
Definition setLoading (b : bool) (st : ManagerState) : ManagerState :=
  {| documents := documents st; loading := b; selectedDoc := selectedDoc st;
     console_errors := console_errors st; alerts := alerts st; notified := notified st |}.
Definition setSelectedDoc (sel : option jsstring) (st : ManagerState) : ManagerState :=
  {| documents := documents st; loading := loading st; selectedDoc := sel;
     console_errors := console_errors st; alerts := alerts st; notified := notified st |}.
(** [console.error('Failed to load documents:', error)] *)
Definition console_error (e : exn) (st : ManagerState) : ManagerState :=
  {| documents := documents st; loading := loading st; selectedDoc := selectedDoc st;
     console_errors := console_errors st ++ [e]; alerts := alerts st;
     notified := notified st |}.
(** [alert(text)] *)
Definition alert (text : jsstring) (st : ManagerState) : ManagerState :=
  {| documents := documents st; loading := loading st; selectedDoc := selectedDoc st;
     console_errors := console_errors st; alerts := alerts st ++ [text];
     notified := notified st |}.

(** The state of a component that has just been mounted. *)
Definition initial : ManagerState :=
  {| documents := Some (JArr []); loading := true; selectedDoc := None;
     console_errors := []; alerts := []; notified := [] |}.

Section Component.
Context `{Platform}.
Variable apiClient : APIClient.
(** whether the parent passed an [onDocumentSelect] callback *)
Variable onDocumentSelect : bool.
(** the answer of the user to a [confirm] dialog with the given text *)
Variable confirm : jsstring -> bool.

(** [onDocumentSelect?.(sel)] *)
Definition notify (sel : option jsstring) (st : ManagerState) : ManagerState :=
  if onDocumentSelect then
    {| documents := documents st; loading := loading st; selectedDoc := selectedDoc st;
       console_errors := console_errors st; alerts := alerts st;
       notified := notified st ++ [sel] |}
  else st.

Definition loadDocuments (st : ManagerState) : IO ManagerState :=
  let st := setLoading true st in
  tried <- attempt (result <- listDocuments apiClient ;;
                    await (get result (lit "documents"))) ;;
  let st := match tried with
            | Ok docs => setDocuments docs st
            | Throw error => console_error error st
            end in
  ret (setLoading false st).

(** [useEffect(() => { loadDocuments(); }, [])] on a fresh component. *)
Definition mount : IO ManagerState := loadDocuments initial.

Definition handleDelete (filename : jsstring) (st : ManagerState) : IO ManagerState :=
  if negb (confirm (lit "Delete " ++ filename ++ lit "?")) then ret st
  else
    tried <- attempt (deleted <- deleteDocument apiClient filename ;;
                      reloaded <- loadDocuments st ;;
                      ret (if bool_decide (selectedDoc st = Some filename)
                           then notify None (setSelectedDoc None reloaded)
                           else reloaded)) ;;
    match tried with
    | Ok st' => ret st'
    | Throw error => ret (alert (lit "Failed to delete: " ++ message error) st)
    end.

(** The click on a document of the list: [handleSelect] with its two
    effects, on the component and on the parent. *)
Definition onClick (filename : jsstring) (st : ManagerState) : ManagerState :=
  let newSelection := handleSelect (selectedDoc st) filename in
  notify newSelection (setSelectedDoc newSelection st).

End Component.

End Manager.

(* ===================================================================== *)
(** * [components/DocumentUploader.tsx] *)
(* ===================================================================== *)

Module Uploader.
Import JS Http Api.
Local Open Scope io_scope.

Inductive status_type : Type := success | error.

Record UploadStatus : Type := {
  type_ : option status_type;      (* [null] is [None] *)
  message_ : jsstring;
}.

Record UploaderState : Type := {
  isDragging : bool;
  uploading : bool;
  uploadStatus : UploadStatus;
  (** delays of the [setTimeout] calls that will run [onUploadSuccess] *)
  timeouts : list N;
}.

Definition setUploading (b : bool) (st : UploaderState) : UploaderState :=
  {| isDragging := isDragging st; uploading := b;
     uploadStatus := uploadStatus st; timeouts := timeouts st |}.
Definition setUploadStatus (u : UploadStatus) (st : UploaderState) : UploaderState :=
  {| isDragging := isDragging st; uploading := uploading st;
     uploadStatus := u; timeouts := timeouts st |}.
Definition setTimeout (delay : N) (st : UploaderState) : UploaderState :=
  {| isDragging := isDragging st; uploading := uploading st;
     uploadStatus := uploadStatus st; timeouts := timeouts st ++ [delay] |}.

Definition initial : UploaderState :=
  {| isDragging := false; uploading := false;
     uploadStatus := {| type_ := None; message_ := [] |}; timeouts := [] |}.

Definition validExtensions : list jsstring :=
  [lit ".pdf"; lit ".docx"; lit ".doc"; lit ".md"; lit ".markdown"; lit ".txt"].

Section Component.
Context `{Platform}.
Variable apiClient : APIClient.
(** whether the parent passed an [onUploadSuccess] callback *)
Variable onUploadSuccess : bool.

(** ['.' + file.name.split('.').pop()?.toLowerCase()] *)
Definition fileExt (file : File) : jsstring :=
  lit "." ++ match snd (pop (split DOT (name file))) with
             | Some segment => toLowerCase segment
             | None => lit "undefined"
             end.

(** [validExtensions.includes(fileExt)] *)
Definition accepted (file : File) : bool :=
  bool_decide (fileExt file ∈ validExtensions).

(** The body of the [try] block up to the status message. *)
Definition upload_and_report (file : File) : IO jsstring :=
  result <- uploadDocument apiClient file ;;
  filename <- await (get result (lit "filename")) ;;
  filename <- await (ToString_value filename) ;;
  chunks_created <- await (get result (lit "chunks_created")) ;;
  chunks_created <- await (ToString_value chunks_created) ;;
  ret ([0x2713] ++ lit " " ++ filename ++ lit " uploaded "
       ++ [0x2022] ++ lit " " ++ chunks_created
       ++ lit " chunks indexed").

Definition handleFile (file : File) (st : UploaderState) : IO UploaderState :=
  if negb (accepted file) then
    ret (setUploadStatus
           {| type_ := Some error;
              message_ := [0x26A0; 0xFE0F] ++ lit " Unsupported format. Accepted: "
                          ++ join (lit ", ") validExtensions |} st)
  else
    let st := setUploading true st in
    let st := setUploadStatus {| type_ := None; message_ := [] |} st in
    tried <- attempt (upload_and_report file) ;;
    let st :=
      match tried with
      | Ok report =>
          let st := setUploadStatus {| type_ := Some success; message_ := report |} st in
          if onUploadSuccess then setTimeout 1500 st else st
      | Throw err =>
          let shown := match js_or (Some (JStr (message err)))
                                   (Some (JStr (lit "Upload failed"))) with
                       | Some (JStr m) => m
                       | _ => []
                       end in
          setUploadStatus {| type_ := Some error;
                             message_ := [0x2715] ++ lit " " ++ shown |} st
      end in
    ret (setUploading false st).

Definition setIsDragging (b : bool) (st : UploaderState) : UploaderState :=
  {| isDragging := b; uploading := uploading st;
     uploadStatus := uploadStatus st; timeouts := timeouts st |}.

(** [handleDrop], with the files of [e.dataTransfer.files].  The
    handler is memoised at the first rendering and so is the
    [handleFile] it calls; the callback of the parent is taken to be
    passed, or not, at every rendering alike. *)
Definition handleDrop (files : list File) (st : UploaderState) : IO UploaderState :=
  let st := setIsDragging false st in
  match files with
  | file :: _ => handleFile file st
  | [] => ret st
  end.

Definition handleDragOver (st : UploaderState) : UploaderState := setIsDragging true st.

Definition handleDragLeave (st : UploaderState) : UploaderState := setIsDragging false st.

(** [handleFileInput], with [e.target.files], [null] on an input that
    is no file input. *)
Definition handleFileInput (files : option (list File)) (st : UploaderState)
  : IO UploaderState :=
  match files with
  | Some (file :: _) => handleFile file st
  | Some [] | None => ret st
  end.

End Component.
End Uploader.

(* ===================================================================== *)
(** * [app/page.tsx] *)
(* ===================================================================== *)

Module Home.
Import JS Http Api.
Local Open Scope io_scope.

(** The three [useState] cells of the page. *)
Record HomeState : Type := {
  selectedDocument : option jsstring;
  showUploader : bool;
  refreshKey : N;
}.

Definition setSelectedDocument (sel : option jsstring) (st : HomeState) : HomeState :=
  {| selectedDocument := sel; showUploader := showUploader st; refreshKey := refreshKey st |}.
Definition setShowUploader (b : bool) (st : HomeState) : HomeState :=
  {| selectedDocument := selectedDocument st; showUploader := b; refreshKey := refreshKey st |}.
Definition setRefreshKey (f : N -> N) (st : HomeState) : HomeState :=
  {| selectedDocument := selectedDocument st; showUploader := showUploader st;
     refreshKey := f (refreshKey st) |}.

Definition initial : HomeState :=
  {| selectedDocument := None; showUploader := false; refreshKey := 0 |}.

Definition handleUploadSuccess (st : HomeState) : HomeState :=
  let st := setShowUploader false st in
  setRefreshKey (fun prev => prev + 1) st.

(** The button of the header: [setShowUploader(!showUploader)]. *)
Definition toggleUploader (st : HomeState) : HomeState :=
  setShowUploader (negb (showUploader st)) st.

(** The page with the document manager it renders.  The manager is
    given [key={refreshKey}] and [onDocumentSelect={setSelectedDocument}]. *)
Record Page : Type := {
  home : HomeState;
  manager : Manager.ManagerState;
}.

(** The calls of [onDocumentSelect] a manager has made from one state
    to a later one arrive at [setSelectedDocument]. *)
Definition deliver (before after : Manager.ManagerState) (st : HomeState) : HomeState :=
  foldl (fun st sel => setSelectedDocument sel st) st
        (drop (length (Manager.notified before)) (Manager.notified after)).

Section Wiring.
Context `{Platform}.
Variable apiClient : APIClient.
Variable confirm : jsstring -> bool.

(** The page at its first rendering: the manager mounts and loads. *)
Definition open : IO Page :=
  mounted <- Manager.mount apiClient ;;
  ret {| home := initial; manager := mounted |}.

(** A click on a document of the sidebar. *)
Definition click (filename : jsstring) (p : Page) : Page :=
  let after := Manager.onClick true filename (manager p) in
  {| home := deliver (manager p) after (home p); manager := after |}.

(** A click on the delete button of a document of the sidebar. *)
Definition delete (filename : jsstring) (p : Page) : IO Page :=
  after <- Manager.handleDelete apiClient true confirm filename (manager p) ;;
  ret {| home := deliver (manager p) after (home p); manager := after |}.

(** The timer of a successful upload fires: [handleUploadSuccess]
    changes the key of the manager, React unmounts the manager and
    mounts a new one, which loads the documents. *)
Definition uploaded (p : Page) : IO Page :=
  let st := handleUploadSuccess (home p) in
  mounted <- Manager.mount apiClient ;;
  ret {| home := st; manager := mounted |}.

End Wiring.
End Home.

(* ===================================================================== *)
(** * A reference host

    An instance of [Platform] to run the client on concrete inputs.  Its
    functions follow the standards on the inputs they accept: the
    lower-casing is that of ASCII letters, and the JSON reader covers
    objects, arrays, strings, integers, booleans and [null]. *)
(* ===================================================================== *)

Module Host.
Import JS.

Definition lower_unit (c : N) : N :=
  if (0x41 <=? c) && (c <=? 0x5A) then c + 0x20 else c.

Definition ascii_toLowerCase (s : jsstring) : jsstring := map lower_unit s.

(** ** UTF-8, both ways *)

Definition hex_digit (n : N) : N :=
  if n <? 10 then 0x30 + n else 0x41 + (n - 10).

Definition percent (b : N) : jsstring :=
  [0x25; hex_digit (b / 16); hex_digit (b mod 16)].

Definition utf8_bytes (cp : N) : list N :=
  if cp <? 0x80 then [cp]
  else if cp <? 0x800 then [0xC0 + cp / 64; 0x80 + cp mod 64]
  else if cp <? 0x10000 then
    [0xE0 + cp / 4096; 0x80 + (cp / 64) mod 64; 0x80 + cp mod 64]
  else
    [0xF0 + cp / 262144; 0x80 + (cp / 4096) mod 64;
     0x80 + (cp / 64) mod 64; 0x80 + cp mod 64].

(** Characters [encodeURIComponent] leaves alone: letters, digits and
    [- _ . ! ~ * ' ( )]. *)
Definition unreserved (c : N) : bool :=
  ((0x41 <=? c) && (c <=? 0x5A)) || ((0x61 <=? c) && (c <=? 0x7A))
  || ((0x30 <=? c) && (c <=? 0x39))
  || (c =? 0x2D) || (c =? 0x5F) || (c =? 0x2E) || (c =? 0x21) || (c =? 0x7E)
  || (c =? 0x2A) || (c =? 0x27) || (c =? 0x28) || (c =? 0x29).

Definition URIError : exn := mkExn (lit "URIError") (lit "URI malformed").

Fixpoint uri_encode (s : jsstring) : result jsstring :=
  match s with
  | [] => Ok []
  | c :: rest =>
      if unreserved c then and_then (uri_encode rest) (fun r => Ok (c :: r))
      else if (0xDC00 <=? c) && (c <=? 0xDFFF) then Throw URIError
      else if (0xD800 <=? c) && (c <=? 0xDBFF) then
        match rest with
        | d :: rest' =>
            if (0xDC00 <=? d) && (d <=? 0xDFFF) then
              let cp := 0x10000 + (c - 0xD800) * 1024 + (d - 0xDC00) in
              and_then (uri_encode rest') (fun r =>
              Ok (concat (map percent (utf8_bytes cp)) ++ r))
            else Throw URIError
        | [] => Throw URIError
        end
      else and_then (uri_encode rest) (fun r =>
           Ok (concat (map percent (utf8_bytes c)) ++ r))
  end.

(** The UTF-8 decoder of the Encoding standard.  Its state: whether a
    character has been emitted (a leading byte order mark is dropped),
    the code point under construction, the continuation bytes still
    needed, and the bounds on the next byte. *)
Record utf8_state : Type := {
  begun : bool;
  code_point : N;
  bytes_needed : N;
  lower_boundary : N;
  upper_boundary : N;
}.

Definition utf8_start : utf8_state :=
  {| begun := false; code_point := 0; bytes_needed := 0;
     lower_boundary := 0x80; upper_boundary := 0xBF |}.

Definition utf8_idle : utf8_state :=
  {| begun := true; code_point := 0; bytes_needed := 0;
     lower_boundary := 0x80; upper_boundary := 0xBF |}.

Definition utf16_units (cp : N) : jsstring :=
  if cp <? 0x10000 then [cp]
  else [0xD800 + (cp - 0x10000) / 1024; 0xDC00 + (cp - 0x10000) mod 1024].

(** Emission of a decoded code point: a byte order mark that comes
    first is swallowed. *)
Definition emit (st : utf8_state) (cp : N) : utf8_state * jsstring :=
  (utf8_idle, if negb (begun st) && (cp =? 0xFEFF) then [] else utf16_units cp).

Definition await_bytes (st : utf8_state) (cp needed lo hi : N) : utf8_state :=
  {| begun := begun st; code_point := cp; bytes_needed := needed;
     lower_boundary := lo; upper_boundary := hi |}.

(** A byte met while no character is under construction. *)
Definition utf8_lead (st : utf8_state) (b : N) : utf8_state * jsstring :=
  if b <=? 0x7F then emit st b
  else if (0xC2 <=? b) && (b <=? 0xDF) then (await_bytes st (b mod 32) 1 0x80 0xBF, [])
  else if (0xE0 <=? b) && (b <=? 0xEF) then
    (await_bytes st (b mod 16) 2 (if b =? 0xE0 then 0xA0 else 0x80)
                                  (if b =? 0xED then 0x9F else 0xBF), [])
  else if (0xF0 <=? b) && (b <=? 0xF4) then
    (await_bytes st (b mod 8) 3 (if b =? 0xF0 then 0x90 else 0x80)
                                 (if b =? 0xF4 then 0x8F else 0xBF), [])
  else (utf8_idle, [0xFFFD]).

Definition utf8_step (st : utf8_state) (byte_ : byte) : utf8_state * jsstring :=
  let b := Byte.to_N byte_ in
  if bytes_needed st =? 0 then utf8_lead st b
  else if (b <? lower_boundary st) || (upper_boundary st <? b) then
    (* the sequence is broken: a replacement character, then the byte
       is read again as the start of a character *)
    let '(st', out) := utf8_lead utf8_idle b in (st', 0xFFFD :: out)
  else
    let cp := code_point st * 64 + b mod 64 in
    if bytes_needed st =? 1 then emit st cp
    else (await_bytes st cp (bytes_needed st - 1) 0x80 0xBF, []).

(** ** A reader of JSON texts *)

Definition SyntaxError : exn :=
  mkExn (lit "SyntaxError") (lit "Unexpected token in JSON").

Fixpoint skip_ws (s : jsstring) : jsstring :=
  match s with
  | c :: rest =>
      if (c =? 0x20) || (c =? 0x09) || (c =? 0x0A) || (c =? 0x0D) then skip_ws rest else s
  | [] => []
  end.

Definition hex_value (c : N) : option N :=
  if (0x30 <=? c) && (c <=? 0x39) then Some (c - 0x30)
  else if (0x41 <=? c) && (c <=? 0x46) then Some (c - 0x41 + 10)
  else if (0x61 <=? c) && (c <=? 0x66) then Some (c - 0x61 + 10)
  else None.

Definition escape (e : N) : option N :=
  if e =? 0x22 then Some 0x22 else if e =? 0x5C then Some 0x5C
  else if e =? 0x2F then Some 0x2F else if e =? 0x62 then Some 0x08
  else if e =? 0x66 then Some 0x0C else if e =? 0x6E then Some 0x0A
  else if e =? 0x72 then Some 0x0D else if e =? 0x74 then Some 0x09
  else None.

(** The characters of a string literal after its opening quote. *)
Fixpoint read_string (s : jsstring) : option (jsstring * jsstring) :=
  match s with
  | [] => None
  | c :: rest =>
      if c =? 0x22 then Some ([], rest)
      else if c <? 0x20 then None
      else if c =? 0x5C then
        match rest with
        | e :: rest1 =>
            if e =? 0x75 then
              match rest1 with
              | h1 :: h2 :: h3 :: h4 :: rest2 =>
                  match hex_value h1, hex_value h2, hex_value h3, hex_value h4 with
                  | Some a, Some b, Some c', Some d =>
                      match read_string rest2 with
                      | Some (str, after) =>
                          Some (((a * 16 + b) * 16 + c') * 16 + d :: str, after)
                      | None => None
                      end
                  | _, _, _, _ => None
                  end
              | _ => None
              end
            else
              match escape e, read_string rest1 with
              | Some u, Some (str, after) => Some (u :: str, after)
              | _, _ => None
              end
        | [] => None
        end
      else
        match read_string rest with
        | Some (str, after) => Some (c :: str, after)
        | None => None
        end
  end.

Definition is_digit (c : N) : bool := (0x30 <=? c) && (c <=? 0x39).

Fixpoint read_digits (s : jsstring) : jsstring * jsstring :=
  match s with
  | c :: rest =>
      if is_digit c then let '(ds, after) := read_digits rest in (c :: ds, after)
      else ([], s)
  | [] => ([], [])
  end.

(** An integer literal; its value as [String] prints it. *)
Definition read_integer (s : jsstring) : option (jsstring * jsstring) :=
  let '(negative, s1) := match s with
                         | c :: rest => if c =? 0x2D then (true, rest) else (false, s)
                         | [] => (false, s)
                         end in
  let '(ds, after) := read_digits s1 in
  let fraction_follows := match after with
                          | c :: _ => (c =? 0x2E) || (c =? 0x65) || (c =? 0x45)
                          | [] => false
                          end in
  match ds with
  | [] => None
  | d :: more =>
      if fraction_follows then None
      else if (d =? 0x30) && negb (bool_decide (more = [])) then None
      else if (15 <? length ds)%nat then None
      else Some (if negative && negb (d =? 0x30) then 0x2D :: ds else ds, after)
  end.

Definition expect (word : string) (v : json) (s : jsstring) : option (json * jsstring) :=
  if startsWith (lit word) s then Some (v, drop (String.length word) s) else None.

(** [JSON.parse] keeps the last of several bindings of a key. *)
Fixpoint define (key : jsstring) (v : json) (props : list (jsstring * json))
  : list (jsstring * json) :=
  match props with
  | [] => [(key, v)]
  | (k, w) :: rest => if bool_decide (k = key) then (k, v) :: rest
                      else (k, w) :: define key v rest
  end.

Fixpoint read_value (fuel : nat) (s : jsstring) : option (json * jsstring) :=
  match fuel with
  | O => None
  | S fuel =>
      match skip_ws s with
      | [] => None
      | c :: rest =>
          if c =? 0x6E then expect "null" JNull (c :: rest)
          else if c =? 0x74 then expect "true" (JBool true) (c :: rest)
          else if c =? 0x66 then expect "false" (JBool false) (c :: rest)
          else if c =? 0x22 then
            match read_string rest with
            | Some (str, after) => Some (JStr str, after)
            | None => None
            end
          else if c =? 0x5B then
            match skip_ws rest with
            | d :: after =>
                if d =? 0x5D then Some (JArr [], after)
                else match read_elements fuel rest with
                     | Some (items, after') => Some (JArr items, after')
                     | None => None
                     end
            | [] => None
            end
          else if c =? 0x7B then
            match skip_ws rest with
            | d :: after =>
                if d =? 0x7D then Some (JObj [], after)
                else match read_members fuel [] rest with
                     | Some (props, after') => Some (JObj props, after')
                     | None => None
                     end
            | [] => None
            end
          else
            match read_integer (c :: rest) with
            | Some (repr, after) => Some (JNum repr, after)
            | None => None
            end
      end
  end
with read_elements (fuel : nat) (s : jsstring) : option (list json * jsstring) :=
  match fuel with
  | O => None
  | S fuel =>
      match read_value fuel s with
      | Some (v, after) =>
          match skip_ws after with
          | c :: after' =>
              if c =? 0x2C then
                match read_elements fuel after' with
                | Some (vs, rest) => Some (v :: vs, rest)
                | None => None
                end
              else if c =? 0x5D then Some ([v], after')
              else None
          | [] => None
          end
      | None => None
      end
  end
with read_members (fuel : nat) (seen : list (jsstring * json)) (s : jsstring)
  : option (list (jsstring * json) * jsstring) :=
  match fuel with
  | O => None
  | S fuel =>
      match skip_ws s with
      | q :: after_quote =>
          if q =? 0x22 then
            match read_string after_quote with
            | Some (key, after_key) =>
                match skip_ws after_key with
                | colon :: after_colon =>
                    if colon =? 0x3A then
                      match read_value fuel after_colon with
                      | Some (v, after) =>
                          let seen := define key v seen in
                          match skip_ws after with
                          | c :: after' =>
                              if c =? 0x2C then read_members fuel seen after'
                              else if c =? 0x7D then Some (seen, after')
                              else None
                          | [] => None
                          end
                      | None => None
                      end
                    else None
                | [] => None
                end
            | None => None
            end
          else None
      | [] => None
      end
  end.

Definition parse (text : jsstring) : result json :=
  match read_value (S (length text)) text with
  | Some (v, after) =>
      match skip_ws after with
      | [] => Ok v
      | _ :: _ => Throw SyntaxError
      end
  | None => Throw SyntaxError
  end.

(** ** A writer of JSON texts *)

Fixpoint quote_units (s : jsstring) : jsstring :=
  match s with
  | [] => []
  | c :: rest =>
      (if c =? 0x22 then [0x5C; 0x22]
       else if c =? 0x5C then [0x5C; 0x5C]
       else if c =? 0x0A then [0x5C; 0x6E]
       else if c =? 0x0D then [0x5C; 0x72]
       else if c =? 0x09 then [0x5C; 0x74]
       else if c =? 0x08 then [0x5C; 0x62]
       else if c =? 0x0C then [0x5C; 0x66]
       else if c <? 0x20 then
         [0x5C; 0x75; 0x30; 0x30; hex_digit (c / 16) ; hex_digit (c mod 16)]
       else [c]) ++ quote_units rest
  end.

Definition quote (s : jsstring) : jsstring := [0x22] ++ quote_units s ++ [0x22].

Fixpoint stringify (v : json) : jsstring :=
  match v with
  | JNull => lit "null"
  | JBool true => lit "true"
  | JBool false => lit "false"
  | JNum repr => repr
  | JStr s => quote s
  | JArr items =>
      lit "[" ++
      (fix go (l : list json) : jsstring :=
         match l with
         | [] => []
         | x :: rest =>
             stringify x ++ match rest with [] => [] | _ :: _ => lit "," ++ go rest end
         end) items
      ++ lit "]"
  | JObj props =>
      lit "{" ++
      (fix go (l : list (jsstring * json)) : jsstring :=
         match l with
         | [] => []
         | (k, x) :: rest =>
             quote k ++ lit ":" ++ stringify x
             ++ match rest with [] => [] | _ :: _ => lit "," ++ go rest end
         end) props
      ++ lit "}"
  end.

#[export] Instance host : Platform := {|
  toLowerCase := ascii_toLowerCase;
  encodeURIComponent := uri_encode;
  JSON_parse := parse;
  JSON_stringify := stringify;
  decoder_state := utf8_state;
  new_TextDecoder := utf8_start;
  decode_byte := utf8_step;
  null_property_error := fun key =>
    mkExn (lit "TypeError")
          (lit "Cannot read properties of null (reading '" ++ key ++ lit "')");
  primitive_error :=
    mkExn (lit "TypeError") (lit "Cannot convert object to primitive value");
|}.

(** The bytes of an ASCII text, as a server writes them. *)
Definition bytes_of (s : string) : list byte := list_byte_of_string s.

(** [TextEncoder]: the UTF-8 bytes of a string; a surrogate without
    its partner is written as the replacement character. *)
Fixpoint utf8_encode (s : jsstring) : list N :=
  match s with
  | [] => []
  | c :: rest =>
      if (0xD800 <=? c) && (c <=? 0xDBFF) then
        match rest with
        | d :: rest' =>
            if (0xDC00 <=? d) && (d <=? 0xDFFF) then
              utf8_bytes (0x10000 + (c - 0xD800) * 1024 + (d - 0xDC00)) ++ utf8_encode rest'
            else utf8_bytes 0xFFFD ++ utf8_encode rest
        | [] => utf8_bytes 0xFFFD
        end
      else if (0xDC00 <=? c) && (c <=? 0xDFFF) then utf8_bytes 0xFFFD ++ utf8_encode rest
      else utf8_bytes c ++ utf8_encode rest
  end.

Definition to_bytes (s : jsstring) : list byte :=
  omap Byte.of_N (utf8_encode s).

(** The server-sent lines that carry the given events. *)
Definition sse (events : list json) : list byte :=
  concat (map (fun e => to_bytes (lit "data: " ++ stringify e ++ [LF])) events).

End Host.

(* ===================================================================== *)
(** * The back end, as the specification describes it

    The Python modules of the back end ([chunking.py], [embeddings.py],
    [retrieval.py]) are not among the sources; the three components
    below are written from the specification's description of them. *)
(* ===================================================================== *)

Module Backend.

(** The defaults of [backend/config.py], as the README lists them:
    chunks of 1000 tokens that overlap by 200 tokens. *)
Definition DEFAULT_CHUNK_SIZE : nat := 1000.
Definition DEFAULT_CHUNK_OVERLAP : nat := 200.

(** ** Chunker *)
Section Chunker.
Context {token : Type}.
(** the token budget of a chunk and the overlap of two neighbours *)
Variables (chunk_size chunk_overlap : nat).

(** Modelled from the spec: the chunker of [chunking.py] is missing;
    "splits text into overlapping fixed-size windows".  A window of
    [chunk_size] tokens slides over the text by [chunk_size -
    chunk_overlap] tokens at a time, and the window that reaches the end
    of the text is the last one.  [fuel] bounds the number of windows. *)
Fixpoint windows (fuel : nat) (start : nat) (text : list token) : list (list token) :=
  match fuel with
  | O => []
  | S fuel =>
      let chunk := take chunk_size (drop start text) in
      if decide (length text <= start + chunk_size)%nat then [chunk]
      else chunk :: windows fuel (start + (chunk_size - chunk_overlap)) text
  end.

(** Modelled from the spec: the entry point of the missing chunker; an
    empty text has no chunk. *)
Definition chunk_text (text : list token) : list (list token) :=
  match text with
  | [] => []
  | _ :: _ => windows (length text) 0 text
  end.

End Chunker.

(** ** Embedding cache *)
Section EmbeddingCache.
Context {vector : Type}.
(** the hash of a chunk text, the key of its entry *)
Variable hash : string -> string.
(** the embeddings provider: what its [n]-th call answers for a text *)
Variable provider : nat -> string -> vector.

(** Modelled from the spec: the state of the missing [embeddings.py]:
    "a local key-value store" from hashes to vectors, together with the
    number of calls made to the provider so far. *)
Record cache_state : Type := {
  store : gmap string vector;
  provider_calls : nat;
}.

(** Modelled from the spec: the lookup of the missing embedding cache;
    "hashes chunk text, stores/retrieves vector embeddings in a local
    key-value store to avoid recomputation". *)
Definition get_embedding (text : string) (s : cache_state) : vector * cache_state :=
  match store s !! hash text with
  | Some v => (v, s)
  | None =>
      let v := provider (provider_calls s) text in
      (v, {| store := <[hash text := v]> (store s);
             provider_calls := S (provider_calls s) |})
  end.

(** Modelled from the spec: the state of the missing cache after a
    series of requests. *)
Definition after_requests (texts : list string) (s : cache_state) : cache_state :=
  foldl (fun s text => snd (get_embedding text s)) s texts.

(** Modelled from the spec: the use of the missing cache on the chunks
    of a document, embedded one after the other. *)
Fixpoint embed_all (texts : list string) (s : cache_state) : list vector * cache_state :=
  match texts with
  | [] => ([], s)
  | text :: rest =>
      let '(v, s1) := get_embedding text s in
      let '(vs, s2) := embed_all rest s1 in
      (v :: vs, s2)
  end.

End EmbeddingCache.

(** ** Hybrid retriever *)

(** Modelled from the spec: a candidate of the missing retriever, a
    chunk with the scores the two searches gave it. *)
Record candidate : Type := {
  chunk_id : string;
  vector_score : Q;
  keyword_score : Q;
}.

#[export] Instance Qle_decision (a b : Q) : Decision (a <= b)%Q :=
  match Qlt_le_dec b a with
  | left lt_ba => right (Qlt_not_le b a lt_ba)
  | right le_ab => left le_ab
  end.

Section HybridRetriever.
(** the fixed weights of the two scores *)
Variables (vector_weight keyword_weight : Q).

(** Modelled from the spec: the merge of the missing [retrieval.py];
    "a weighted sum to merge scores". *)
Definition final_score (c : candidate) : Q :=
  (vector_weight * vector_score c + keyword_weight * keyword_score c)%Q.

(** Modelled from the spec: the order of the missing ranking; [a]
    ranks no lower than [b]. *)
Definition outranks (a b : candidate * Q) : Prop := (snd b <= snd a)%Q.

#[export] Instance outranks_decision a b : Decision (outranks a b) :=
  Qle_decision (snd b) (snd a).

(** Modelled from the spec: the missing hybrid retriever; "merges
    vector-similarity ranked results with keyword-frequency ranked results
    using a fixed weighting": each candidate gets its merged score and
    the candidates are ranked by it, highest first. *)
Definition rank (candidates : list candidate) : list (candidate * Q) :=
  merge_sort outranks ((fun c => (c, final_score c)) <$> candidates).

(** Modelled from the spec: the result set, the [top_k] best of the ranking. *)
Definition hybrid_search (top_k : nat) (candidates : list candidate)
  : list (candidate * Q) :=
  take top_k (rank candidates).

End HybridRetriever.

End Backend.

(* ===================================================================== *)
(** * The notions in which the behaviour is stated *)
(* ===================================================================== *)

Module Spec.
Import JS Http Api Chat.

(** A response body delivered in the given successive reads. *)
Definition stream_of (reads : list (list byte)) : body_stream :=
  foldr Chunk Done reads.

(** The complete lines of a text: each is ended by a line feed; what
    follows the last line feed is no line yet. *)
Definition complete_lines (text : jsstring) : list jsstring :=
  fst (pop (split LF text)).

(** The line left unfinished at the end of a text. *)
Definition unfinished_line (text : jsstring) : jsstring :=
  default [] (snd (pop (split LF text))).

(** The payloads of the lines that begin with ["data: "]. *)
Definition data_payloads (lines : list jsstring) : list jsstring :=
  map (slice_from 6) (List.filter (startsWith (lit "data: ")) lines).

(** The payloads parsed in order; a payload that is no JSON ends the
    stream with the exception of the parser. *)
Fixpoint parsed `{Platform} (payloads : list jsstring) : gen :=
  match payloads with
  | [] => GDone
  | p :: rest =>
      match JSON_parse p with
      | Ok data => GYield data (parsed rest)
      | Throw e => GThrow e
      end
  end.

(** The events of a server-sent byte stream. *)
Definition stream_events `{Platform} (bytes : list byte) : gen :=
  parsed (data_payloads (complete_lines (snd (decode new_TextDecoder bytes)))).

(** A generator that yields the given values and returns. *)
Definition gen_of (events : list json) : gen := foldr GYield GDone events.

(** A field of an event. *)
Definition field (key : string) (event : json) : value :=
  match event with
  | JObj props => own_property (lit key) props
  | _ => None
  end.

Definition has_type (t : string) (event : json) : bool :=
  is_string (lit t) (field "type" event).

(** The answer of a stream: the contents of its chunk events as
    strings, in order of arrival; there is none if a content has no
    string to give. *)
Fixpoint answer_of `{Platform} (events : list json) : result jsstring :=
  match events with
  | [] => Ok []
  | e :: rest =>
      if has_type "chunk" e then
        and_then (ToString_value (field "content" e)) (fun text =>
        and_then (answer_of rest) (fun more => Ok (text ++ more)))
      else answer_of rest
  end.

(** The sources array of the last sources event among the given ones;
    [none] when there is no such event. *)
Definition last_sources_or (none : value) (events : list json) : value :=
  match last (List.filter (has_type "sources") events) with
  | Some e => field "sources" e
  | None => none
  end.

(** The assistant message that shows the variables of [handleSubmit]. *)
Definition showing (loc : Locals) : Message :=
  {| role_ := assistant; content := fullAnswer loc; sources := sources_ loc |}.

(** A network that answers every request with the given response. *)
Definition answering (response : Response) : Net := fun _ _ => Ok response.

(** A response that carries the given reads as its body. *)
Definition streamed (ok_ : bool) (j : result json) (reads : list (list byte)) : Response :=
  {| ok := ok_; json_ := j; body_ := Some (stream_of reads) |}.

(** The [detail] a response supplies, if its body is a JSON object
    that has one. *)
Definition detail_of (response : Response) : value :=
  match json_ response with
  | Ok error => field "detail" error
  | Throw _ => None
  end.

(** What an operation throws on a response that is not ok: the
    exception of the JSON reader when the body is no JSON, that of the
    property access when it is [null], and otherwise an [Error] with the
    detail as a string if it is truthy, with the fallback if not; a
    truthy detail that has no string to give makes the conversion throw
    its own exception instead. *)
Definition failure_of `{Platform} (response : Response) (fallback : string) : exn :=
  match json_ response with
  | Throw e => e
  | Ok JNull => null_property_error (lit "detail")
  | Ok error =>
      if truthy (field "detail" error)
      then match ToString_value (field "detail" error) with
           | Ok text => Error text
           | Throw e => e
           end
      else Error (lit fallback)
  end.

(** The value a run returns, if it returns. *)
Definition fst_ok {A : Type} (run : result A * list Request) : option A :=
  match fst run with
  | Ok a => Some a
  | Throw _ => None
  end.

(** A run that makes exactly one request and throws. *)
Definition fails_once {A : Type} (c : IO A) (net : Net) (log : list Request) (e : exn) : Prop :=
  exists req, c net log = (Throw e, log ++ [req]).

(** An event that is neither [null] nor an error event. *)
Definition quiet (event : json) : bool :=
  match event with
  | JNull => false
  | _ => negb (has_type "error" event)
  end.

(** The claim about the answer on display, in the words of the
    specification: for every streaming query, the assistant message
    equals the concatenation of the contents of the chunk events, and its
    citations are the sources array carried by the sources event of the
    stream. *)
Definition answer_cites_stream_sources `{Platform}
  (apiClient : APIClient) (selectedDocument : option jsstring) : Prop :=
  forall (renders : list bool) (st : ChatState) (net : Net) (log log' : list Request)
         (events : list json),
    blocked st = false ->
    pending st = [] ->
    queryStream apiClient (stream_query selectedDocument st) net log
    = (Ok (gen_of events), log') ->
    forall e, e ∈ events -> has_type "sources" e = true ->
    exists st' text,
      handleSubmit apiClient selectedDocument renders st net log = (Ok st', log')
      /\ answer_of events = Ok text
      /\ last (messages st')
         = Some {| role_ := assistant;
                   content := text;
                   sources := field "sources" e |}.

(** The number of values a generator yields. *)
Fixpoint yields (g : gen) : nat :=
  match g with
  | GYield _ rest => S (yields rest)
  | GDone | GThrow _ => O
  end.

(** A string with a character that is not white space. *)
Definition nonblank (s : jsstring) : Prop := forallb is_whitespace s = false.

(** Every message of the user says something. *)
Definition users_nonblank (msgs : list Message) : Prop :=
  Forall (fun m => role_ m = user -> nonblank (content m)) msgs.

(** An updater that adds no blank message of the user. *)
Definition adds_nonblank (u : updater) : Prop :=
  match u with
  | Append m | ReplaceLast m => role_ m = user -> nonblank (content m)
  | ShowAnswer => True
  end.

(** The claim about failed requests, in the words of the specification:
    on a response that is not ok the operation throws an [Error] that
    carries the [detail] supplied by the server, or the fallback when
    there is no [detail]. *)
Definition throws_detail_or_fallback `{Platform} {A : Type} (op : IO A) (fallback : string)
  : Prop :=
  forall (net : Net) (log : list Request) (response : Response),
    (forall req, net log req = Ok response) ->
    ok response = false ->
    match detail_of response with
    | Some detail =>
        exists text, ToString detail = Ok text /\ fst (op net log) = Throw (Error text)
    | None => fst (op net log) = Throw (Error (lit fallback))
    end.

(** The extension of a file name: what follows its last full stop;
    a name without a full stop has none. *)
Definition extension (name : jsstring) : option jsstring :=
  match pop (split DOT name) with
  | (_ :: _, Some last) => Some last
  | _ => None
  end.

(** A file the uploader is meant to take: the final extension of its
    name, in lower case, is one of the valid extensions. *)
Definition supported `{Platform} (file : File) : bool :=
  match extension (name file) with
  | Some ext => bool_decide (lit "." ++ toLowerCase ext ∈ Uploader.validExtensions)
  | None => false
  end.

(** The upload request for a file. *)
Definition upload_request (apiClient : APIClient) (file : File) : Request :=
  {| url := baseURL apiClient ++ lit "/upload"; meth := POST; headers := [];
     req_body := FormBody [(lit "file", file)] |}.

(** A response body whose reads come to an end with a rejected read. *)
Definition broken_after (reads : list (list byte)) (e : exn) : body_stream :=
  foldr Chunk (Broken e) reads.

(** The payloads parsed in order, followed by the exception that ends
    the stream. *)
Fixpoint parsed_then_thrown `{Platform} (payloads : list jsstring) (e : exn) : gen :=
  match payloads with
  | [] => GThrow e
  | p :: rest =>
      match JSON_parse p with
      | Ok data => GYield data (parsed_then_thrown rest e)
      | Throw e' => GThrow e'
      end
  end.

(** The exception the loop of the chat raises on an event: a
    [TypeError] on [null] and on a chunk event whose content has no
    string to give, the error of an error event, or the [TypeError] of
    its message if that has no string to give. *)
Definition raises `{Platform} (event : json) : option exn :=
  match event with
  | JNull => Some (null_property_error (lit "type"))
  | _ =>
      if has_type "chunk" event then
        match ToString_value (field "content" event) with
        | Ok _ => None
        | Throw e => Some e
        end
      else if has_type "error" event then
        match new_Error (field "message" event) with
        | Ok e | Throw e => Some e
        end
      else None
  end.

(** The failure that ends the reading of a stream, if one does: the
    first event that raises, or the exception of the generator. *)
Fixpoint failure `{Platform} (g : gen) : option exn :=
  match g with
  | GDone => None
  | GThrow e => Some e
  | GYield data rest =>
      match raises data with
      | Some e => Some e
      | None => failure rest
      end
  end.

(** The message that reports a failure in the transcript. *)
Definition failure_message (e : exn) : Message :=
  {| role_ := assistant; content := error_prefix ++ message e; sources := Some (JArr []) |}.

(** The roles of a transcript of [n] exchanges: a question of the
    user, then an answer of the assistant, [n] times. *)
Definition exchanges (n : nat) : list role := concat (replicate n [user; assistant]).

(** The request that lists the documents. *)
Definition list_request (apiClient : APIClient) : Request :=
  {| url := baseURL apiClient ++ lit "/documents"; meth := GET; headers := [];
     req_body := NoBody |}.

(** The request that deletes a document, given its encoded name. *)
Definition delete_request (apiClient : APIClient) (encoded : jsstring) : Request :=
  {| url := baseURL apiClient ++ lit "/documents/" ++ encoded; meth := DELETE;
     headers := []; req_body := NoBody |}.

(** The request of a question in the chat. *)
Definition stream_request `{Platform} (apiClient : APIClient) (request : QueryRequest)
  : Request :=
  {| url := baseURL apiClient ++ lit "/query/stream"; meth := POST;
     headers := [(lit "Content-Type", lit "application/json")];
     req_body := TextBody (JSON_stringify (QueryRequest_json request)) |}.

(** The sidebar and the page agree on the selected document. *)
Definition in_step (p : Home.Page) : Prop :=
  Manager.selectedDoc (Home.manager p) = Home.selectedDocument (Home.home p).

End Spec.

(* ===================================================================== *)
(** * Sample data *)
(* ===================================================================== *)

Module Sample.
Import JS Http Api Chat Spec Host.

(** The client of the page, with the default base URL. *)
Definition client : APIClient := apiClient None.

(** The chat with a question typed in. *)
Definition asking : ChatState := setInput (lit "What is RAG?") Chat.initial.

Definition sources_event : json :=
  JObj [(lit "type", JStr (lit "sources"));
        (lit "sources",
         JArr [JObj [(lit "text", JStr (lit "RAG retrieves, then generates."));
                     (lit "metadata", JObj [(lit "filename", JStr (lit "ai_introduction.md"))]);
                     (lit "score", JNum (lit "1"))]])].

Definition chunk_event (text : string) : json :=
  JObj [(lit "type", JStr (lit "chunk")); (lit "content", JStr (lit text))].

Definition done_event : json := JObj [(lit "type", JStr (lit "done"))].

(** A server that streams the given events in one read. *)
Definition server (events : list json) : Net :=
  answering (streamed true (Throw SyntaxError) [sse events]).

(** The stream as the back end sends it: sources, the answer, the end. *)
Definition usual_stream : list json :=
  [sources_event; chunk_event "Hel"; chunk_event "lo"; done_event].

(** A stream that carries sources and no chunk of an answer. *)
Definition no_answer : list json := [sources_event; done_event].

(** The answer of an unhandled exception in the back end: status 500
    and a body of plain text. *)
Definition plain_text_failure : Response :=
  {| ok := false; json_ := parse (lit "Internal Server Error"); body_ := None |}.

(** The answer of a refused request: a status that is not ok and a
    JSON body with a [detail]. *)
Definition refusal : Response :=
  {| ok := false;
     json_ := parse (stringify (JObj [(lit "detail", JStr (lit "Unsupported file type"))]));
     body_ := None |}.

Definition notes : File := {| name := lit "notes.txt"; content_bytes := [] |}.

(** A file whose name has no extension at all. *)
Definition dotless : File := {| name := lit "pdf"; content_bytes := [] |}.

(** Candidates of a retrieval: a strong match of the vector search,
    a strong match of the keyword search, and a weak match of both. *)
Definition strong_match : Backend.candidate :=
  {| Backend.chunk_id := "ai_introduction.md#0";
     Backend.vector_score := 9 # 10; Backend.keyword_score := 1 # 10 |}.
Definition keyword_match : Backend.candidate :=
  {| Backend.chunk_id := "ai_introduction.md#3";
     Backend.vector_score := 5 # 10; Backend.keyword_score := 9 # 10 |}.
Definition weak_match : Backend.candidate :=
  {| Backend.chunk_id := "python_basics.md#1";
     Backend.vector_score := 2 # 10; Backend.keyword_score := 2 # 10 |}.
Definition candidates : list Backend.candidate :=
  [weak_match; keyword_match; strong_match].

(** The receipt of an upload. *)
Definition upload_receipt : json :=
  JObj [(lit "filename", JStr (lit "pdf")); (lit "chunks_created", JNum (lit "0"))].

(** The exception of a [fetch] that reaches no server. *)
Definition network_error : exn := mkExn (lit "TypeError") (lit "Failed to fetch").

(** A network without a server. *)
Definition unreachable : Net := fun _ _ => Throw network_error.

(** A server that takes any upload. *)
Definition upload_server : Net :=
  answering {| ok := true;
               json_ := Ok (JObj [(lit "filename", JStr (lit "pdf"));
                                  (lit "chunks_created", JNum (lit "0"))]);
               body_ := None |}.

End Sample.

(** Unfolding of the client monad in a goal. *)
Ltac unfold_io :=
  unfold Http.attempt, Http.bind, Http.fetch, Http.await, Http.ret, Http.throw in *.

(** Case analysis on the outcomes a run of the client depends on. *)
Ltac cases_io :=
  repeat match goal with
         | |- context [match ?r with JS.Ok _ => _ | JS.Throw _ => _ end] =>
             destruct r eqn:?
         | |- context [match ?o with Some _ => _ | None => _ end] =>
             destruct o eqn:?
         | |- context [if ?b then _ else _] => destruct b eqn:?
         | |- context [let '(_, _) := ?p in _] => destruct p eqn:?
         end.

(* ===================================================================== *)
(** * Facts about strings and arrays *)
(* ===================================================================== *)

Module JSFacts.
Import JS.

Lemma pop_snoc {A : Type} (l : list A) (x : A) : pop (l ++ [x]) = (l, Some x).
Proof.
  induction l as [|y l IH]; [reflexivity|].
  cbn [app pop]. rewrite IH.
  destruct l; reflexivity.
Qed.

(** [split] always returns a last segment, which holds no separator. *)
Lemma split_snoc (sep : N) (s : jsstring) :
  exists segs last, split sep s = segs ++ [last] /\ sep ∉ last.
Proof.
  induction s as [|c s (segs & last & Hs & Hlast)].
  - exists [], []. split; [reflexivity|]. apply not_elem_of_nil.
  - cbn [split]. destruct (N.eqb_spec c sep) as [->|Hc].
    + exists ([] :: segs), last. rewrite Hs. split; [reflexivity|assumption].
    + rewrite Hs. destruct segs as [|seg segs]; cbn [app].
      * exists [], (c :: last). split; [reflexivity|].
        intros [?|?]%elem_of_cons; [congruence|contradiction].
      * exists ((c :: seg) :: segs), last. split; [reflexivity|assumption].
Qed.

(** A text without separator is its own and only segment. *)
Lemma split_free (sep : N) (s : jsstring) : sep ∉ s -> split sep s = [s].
Proof.
  induction s as [|c s IH]; [reflexivity|].
  intros Hfree. cbn [split].
  destruct (N.eqb_spec c sep) as [->|Hc].
  - exfalso. apply Hfree. left.
  - rewrite IH; [reflexivity|]. intros Hin. apply Hfree. by right.
Qed.

(** A text with a single segment holds no separator. *)
Lemma split_single (sep : N) (s last : jsstring) :
  split sep s = [last] -> sep ∉ s.
Proof.
  revert last. induction s as [|c s IH]; intros last Hs; [apply not_elem_of_nil|].
  cbn [split] in Hs. destruct (split_snoc sep s) as (segs & l & Heq & _).
  rewrite Heq in Hs. destruct (N.eqb_spec c sep) as [->|Hc].
  - by destruct segs.
  - destruct segs as [|seg segs]; [|by destruct segs].
    apply not_elem_of_cons. split; [done|]. by apply (IH l).
Qed.

(** Splitting a text that grows: the finished segments stay, the last
    one is split again with what has been appended. *)
Lemma split_app (sep : N) (s t : jsstring) (segs : list jsstring) (last : jsstring) :
  split sep s = segs ++ [last] ->
  split sep (s ++ t) = segs ++ split sep (last ++ t).
Proof.
  revert segs last. induction s as [|c s IH]; intros segs last Hs.
  - cbn [split] in Hs. change [[]] with ([] ++ [[] : jsstring]) in Hs.
    apply app_inj_tail in Hs as [<- <-]. reflexivity.
  - destruct (split_snoc sep s) as (segs' & last' & Heq & _).
    specialize (IH _ _ Heq).
    cbn [split app] in *. rewrite Heq in Hs. rewrite IH.
    destruct (N.eqb_spec c sep) as [->|Hc].
    + change ([] :: segs' ++ [last']) with (([] :: segs') ++ [last']) in Hs.
      apply app_inj_tail in Hs as [<- <-]. reflexivity.
    + destruct segs' as [|seg' segs']; cbn [app] in *.
      * change [c :: last'] with ([] ++ [c :: last']) in Hs.
        apply app_inj_tail in Hs as [<- <-]. cbn [split app].
        destruct (N.eqb_spec c sep); [done|]. reflexivity.
      * change ((c :: seg') :: segs' ++ [last'])
          with (((c :: seg') :: segs') ++ [last']) in Hs.
        apply app_inj_tail in Hs as [<- <-]. reflexivity.
Qed.

End JSFacts.

(* ===================================================================== *)
(** * Facts about the API client *)
(* ===================================================================== *)

Module ApiFacts.
Import JS Http Api Spec JSFacts.

Section Facts.
Context `{Platform}.

(** ** The streaming loop *)

Lemma decode_app (st : decoder_state) (a b : list byte) :
  decode st (a ++ b) =
  let '(st1, out1) := decode st a in
  let '(st2, out2) := decode st1 b in
  (st2, out1 ++ out2).
Proof.
  revert st. induction a as [|x a IH]; intros st; cbn [app decode].
  - by destruct (decode st b).
  - destruct (decode_byte st x) as [st1 out1]. rewrite IH.
    destruct (decode st1 a) as [st2 out2], (decode st2 b) as [st3 out3].
    by rewrite app_assoc.
Qed.

Lemma yield_lines_app (lines1 lines2 : list jsstring) (next : gen) :
  yield_lines (lines1 ++ lines2) next = yield_lines lines1 (yield_lines lines2 next).
Proof.
  induction lines1 as [|line lines1 IH]; [reflexivity|].
  cbn [app yield_lines]. rewrite IH. reflexivity.
Qed.

(** The [for] loop over the lines does what the specification says:
    the payloads of the data lines are parsed and yielded in order. *)
Lemma yield_lines_parsed (lines : list jsstring) :
  yield_lines lines GDone = parsed (data_payloads lines).
Proof.
  unfold data_payloads. induction lines as [|line lines IH]; [reflexivity|].
  cbn [yield_lines List.filter].
  destruct (startsWith (lit "data: ") line); [|exact IH].
  cbn [map parsed]. rewrite IH. reflexivity.
Qed.

(** [lines.pop() || ''] is the last segment. *)
Lemma kept_buffer (last : option jsstring) :
  match js_or (JStr <$> last) (Some (JStr [])) with
  | Some (JStr s) => s
  | _ => []
  end = default [] last.
Proof.
  destruct last as [[|c s]|]; reflexivity.
Qed.

Lemma unfinished_line_free (text : jsstring) : LF ∉ unfinished_line text.
Proof.
  unfold unfinished_line.
  destruct (split_snoc LF text) as (segs & last & -> & Hfree).
  by rewrite pop_snoc.
Qed.

Lemma complete_lines_app (s t : jsstring) :
  complete_lines (s ++ t) = complete_lines s ++ complete_lines (unfinished_line s ++ t).
Proof.
  unfold complete_lines, unfinished_line.
  destruct (split_snoc LF s) as (segs & last & Hs & _).
  rewrite (split_app _ _ _ _ _ Hs), Hs, pop_snoc.
  change (default [] (segs, Some last).2) with last. cbn [fst].
  destruct (split_snoc LF (last ++ t)) as (segs' & last' & -> & _).
  by rewrite app_assoc, !pop_snoc.
Qed.

Lemma complete_lines_free (s : jsstring) : LF ∉ s -> complete_lines s = [].
Proof.
  intros Hfree. unfold complete_lines. by rewrite split_free.
Qed.

(** The loop, whatever the reads, yields the events of the lines
    completed by the buffer and the decoded bytes together. *)
Lemma read_loop_whole (reads : list (list byte)) (decoder : decoder_state) (buffer : jsstring) :
  LF ∉ buffer ->
  read_loop decoder buffer (stream_of reads) =
  yield_lines (complete_lines (buffer ++ snd (decode decoder (concat reads)))) GDone.
Proof.
  revert decoder buffer. induction reads as [|value reads IH]; intros decoder buffer Hfree.
  - cbn. rewrite app_nil_r, complete_lines_free by assumption. reflexivity.
  - cbn [stream_of foldr concat read_loop]. rewrite decode_app.
    destruct (decode decoder value) as [decoder1 text1].
    fold (stream_of reads).
    destruct (pop (split LF (buffer ++ text1))) as [lines last] eqn:Hpop.
    rewrite kept_buffer, IH.
    2:{ pose proof (unfinished_line_free (buffer ++ text1)) as Hu.
        unfold unfinished_line in Hu. by rewrite Hpop in Hu. }
    destruct (decode decoder1 (concat reads)) as [decoder2 text2]. cbn [snd].
    rewrite <- yield_lines_app, app_assoc, (complete_lines_app (buffer ++ text1)).
    unfold complete_lines at 2, unfinished_line. rewrite Hpop. reflexivity.
Qed.

(** On a response that is ok and has a body, the generator of
    [queryStream] is the loop over the reads of that body, started with
    a new decoder and an empty buffer, after the one request. *)
Lemma queryStream_reads (this : APIClient) (request : QueryRequest) (net : Net)
  (log : list Request) (response : Response) (reader : body_stream) :
  net log (stream_request this request) = Ok response ->
  ok response = true ->
  body_ response = Some reader ->
  queryStream this request net log
  = (Ok (read_loop new_TextDecoder [] reader), log ++ [stream_request this request]).
Proof.
  intros Hnet Hok Hbody. unfold queryStream. unfold_io.
  fold (stream_request this request). by rewrite Hnet, Hok, Hbody.
Qed.

(** Claim C8: for any two partitions of the same server-sent byte
    stream into successive reads, [queryStream] yields the same sequence
    of parsed events.  After its one request the generator it returns
    keeps the unfinished last line from one read to the next, parses the
    complete lines that begin with ["data: "], yields their JSON payloads
    in the order of the stream and ignores every other line: whatever
    the reads, its events are those of the stream as a whole,
    [stream_events]. *)
Theorem queryStream_partition_independent
  (this : APIClient) (request : QueryRequest) (net1 net2 : Net) (log : list Request)
  (response1 response2 : Response) (reads1 reads2 : list (list byte)) :
  net1 log (stream_request this request) = Ok response1 ->
  net2 log (stream_request this request) = Ok response2 ->
  ok response1 = true ->
  ok response2 = true ->
  body_ response1 = Some (stream_of reads1) ->
  body_ response2 = Some (stream_of reads2) ->
  concat reads1 = concat reads2 ->
  queryStream this request net1 log
  = (Ok (stream_events (concat reads1)), log ++ [stream_request this request])
  /\ queryStream this request net2 log = queryStream this request net1 log.
Proof.
  intros Hnet1 Hnet2 Hok1 Hok2 Hbody1 Hbody2 Hsame.
  assert (Hwhole : forall reads,
             read_loop new_TextDecoder [] (stream_of reads) = stream_events (concat reads)).
  { intros reads. rewrite read_loop_whole by apply not_elem_of_nil.
    apply yield_lines_parsed. }
  rewrite (queryStream_reads this request net1 log response1 _ Hnet1 Hok1 Hbody1).
  rewrite (queryStream_reads this request net2 log response2 _ Hnet2 Hok2 Hbody2).
  by rewrite !Hwhole, Hsame.
Qed.

(** ** The endpoints *)

(** The one request of a streamed query. *)
Lemma queryStream_sends (this : APIClient) (request : QueryRequest)
  (net : Net) (log : list Request) :
  snd (queryStream this request net log)
  = log ++ [{| url := baseURL this ++ lit "/query/stream"; meth := POST;
               headers := [(lit "Content-Type", lit "application/json")];
               req_body := TextBody (JSON_stringify (QueryRequest_json request)) |}].
Proof.
  unfold queryStream, fail_with. unfold_io. cases_io; reflexivity.
Qed.

(** Claim C7: every operation of the client makes its request to the
    endpoint of the API it is meant for: ingestion POSTs to [/upload],
    questions POST to [/query] and [/query/stream], listing GETs
    [/documents], deletion sends DELETE to [/documents/] followed by the
    URL-encoded file name, and the health check GETs [/]. *)
Theorem client_endpoints
  (this : APIClient) (net : Net) (log : list Request)
  (file : File) (request : QueryRequest) (doc : jsstring) :
  snd (uploadDocument this file net log)
  = log ++ [{| url := baseURL this ++ lit "/upload"; meth := POST; headers := [];
               req_body := FormBody [(lit "file", file)] |}]
  /\ snd (query this request net log)
  = log ++ [{| url := baseURL this ++ lit "/query"; meth := POST;
               headers := [(lit "Content-Type", lit "application/json")];
               req_body := TextBody (JSON_stringify (QueryRequest_json request)) |}]
  /\ snd (queryStream this request net log)
  = log ++ [{| url := baseURL this ++ lit "/query/stream"; meth := POST;
               headers := [(lit "Content-Type", lit "application/json")];
               req_body := TextBody (JSON_stringify (QueryRequest_json request)) |}]
  /\ snd (listDocuments this net log)
  = log ++ [{| url := baseURL this ++ lit "/documents"; meth := GET; headers := [];
               req_body := NoBody |}]
  /\ snd (deleteDocument this doc net log)
  = match encodeURIComponent doc with
    | Ok encoded =>
        log ++ [{| url := baseURL this ++ lit "/documents/" ++ encoded; meth := DELETE;
                   headers := []; req_body := NoBody |}]
    | Throw _ => log
    end
  /\ snd (healthCheck this net log)
  = log ++ [{| url := baseURL this ++ lit "/"; meth := GET; headers := [];
               req_body := NoBody |}].
Proof.
  unfold uploadDocument, query, queryStream, listDocuments, deleteDocument,
    healthCheck, fail_with.
  unfold_io.
  repeat split; try apply queryStream_sends; cases_io; reflexivity.
Qed.

(** ** Responses that are not ok *)

Lemma fail_with_failure_of {A : Type} (response : Response) (fallback : string)
  (net : Net) (log : list Request) :
  fail_with (A := A) response fallback net log = (Throw (failure_of response fallback), log).
Proof.
  unfold fail_with, failure_of. unfold_io.
  destruct (json_ response) as [error|e]; [|reflexivity].
  destruct error; try reflexivity.
  cbn [get field]. unfold js_or.
  destruct (own_property (lit "detail") props) as [detail|] eqn:Hd; [|reflexivity].
  destruct (truthy (Some detail)); [|reflexivity].
  cbn [new_Error ToString_value]. by destruct (ToString detail).
Qed.

(** Claim C5, amended: on a response that is not ok, every operation
    of the client (upload, query, streamed query, list, delete) makes no
    second request and takes no other recovery action: it throws.  If
    the body of the response is a JSON object, it throws an [Error] that
    carries the server's [detail] as a string when the detail is
    truthy, and the fixed fallback of the operation when the detail is
    absent, empty or otherwise falsy; a truthy detail that has no string
    to give (an object with an own [toString] property, or an array
    that holds one) makes it throw the [TypeError] of the conversion;
    if the body is no JSON or is [null], it throws the exception of the
    reader or of the property access. *)
Theorem non_ok_response_throws
  (this : APIClient) (net : Net) (log : list Request) (response : Response)
  (file : File) (request : QueryRequest) (doc encoded : jsstring) :
  (forall req, net log req = Ok response) ->
  ok response = false ->
  encodeURIComponent doc = Ok encoded ->
  fails_once (uploadDocument this file) net log (failure_of response "Upload failed")
  /\ fails_once (query this request) net log (failure_of response "Query failed")
  /\ fails_once (queryStream this request) net log (failure_of response "Query failed")
  /\ fails_once (listDocuments this) net log (failure_of response "Failed to list documents")
  /\ fails_once (deleteDocument this doc) net log
       (failure_of response "Failed to delete document").
Proof.
  intros Hnet Hok Henc. unfold fails_once.
  repeat split; eexists.
  all: unfold uploadDocument, query, queryStream, listDocuments, deleteDocument.
  all: unfold_io; rewrite ?Henc, Hnet, Hok; cbn [negb].
  all: rewrite fail_with_failure_of; reflexivity.
Qed.

End Facts.

#[local] Existing Instance Host.host.

(** A stream read in two pieces and read at once. *)
Lemma queryStream_partition_independent_witness :
  let bytes := Host.sse Sample.usual_stream in
  let request := {| query_ := lit "What is RAG?"; top_k := Some 5; filename := None;
                    stream := Some true |} in
  let in_two := answering (streamed true (Throw Host.SyntaxError)
                             [take 40 bytes; drop 40 bytes]) in
  queryStream Sample.client request in_two []
  = (Ok (gen_of Sample.usual_stream), [stream_request Sample.client request])
  /\ queryStream Sample.client request (Sample.server Sample.usual_stream) []
     = queryStream Sample.client request in_two [].
Proof.
  intros bytes request in_two.
  destruct (queryStream_partition_independent
              Sample.client request in_two (Sample.server Sample.usual_stream) []
              (streamed true (Throw Host.SyntaxError) [take 40 bytes; drop 40 bytes])
              (streamed true (Throw Host.SyntaxError) [bytes])
              [take 40 bytes; drop 40 bytes] [bytes]
              eq_refl eq_refl eq_refl eq_refl eq_refl eq_refl
              ltac:(vm_compute; reflexivity))
    as [Hevents Hsame].
  split; [|exact Hsame]. rewrite Hevents. vm_compute. reflexivity.
Defined.

(** A refused upload throws the detail of the server. *)
Lemma non_ok_response_throws_witness :
  fails_once (uploadDocument Sample.client Sample.notes)
             (answering Sample.refusal) []
             (Error (lit "Unsupported file type")).
Proof.
  apply (non_ok_response_throws Sample.client (answering Sample.refusal) []
           Sample.refusal Sample.notes
           {| query_ := []; top_k := None; filename := None; stream := None |}
           (lit "notes.txt") (lit "notes.txt")).
  - intros req. reflexivity.
  - reflexivity.
  - reflexivity.
Defined.

(** Claim C5 as stated fails: a response that is not ok and whose body
    is no JSON makes [uploadDocument] throw the exception of the JSON
    reader, not an [Error] with the fallback message. *)
Lemma plain_text_failure_not_reported :
  ~ throws_detail_or_fallback (uploadDocument Sample.client Sample.notes) "Upload failed".
Proof.
  intros Hclaim.
  specialize (Hclaim (answering Sample.plain_text_failure) [] Sample.plain_text_failure
                (fun _ => eq_refl) eq_refl).
  vm_compute in Hclaim. discriminate Hclaim.
Qed.

End ApiFacts.

(* ===================================================================== *)
(** * Facts about the chat interface *)
(* ===================================================================== *)

Module ChatFacts.
Import JS Http Api Chat Spec JSFacts.

(** ** Blank inputs *)

Lemma trimStart_nil (s : jsstring) :
  trimStart s = [] <-> forallb is_whitespace s = true.
Proof.
  induction s as [|c s IH]; [done|].
  cbn [trimStart forallb]. destruct (is_whitespace c); cbn [andb]; [exact IH|done].
Qed.

Lemma trimStart_fixed (s : jsstring) :
  forallb is_whitespace (trimStart s) = true -> trimStart s = [].
Proof.
  induction s as [|c s IH]; [done|].
  cbn [trimStart]. destruct (is_whitespace c) eqn:Hc; [exact IH|].
  cbn [forallb]. by rewrite Hc.
Qed.

Lemma forallb_rev {A : Type} (f : A -> bool) (l : list A) :
  forallb f (rev l) = forallb f l.
Proof.
  induction l as [|x l IH]; [done|].
  cbn [rev forallb]. rewrite forallb_app, IH. cbn. by rewrite andb_true_r, andb_comm.
Qed.

(** [trim] leaves nothing exactly of the strings that are empty or made
    of white space only. *)
Lemma trim_nil (s : jsstring) :
  trim s = [] <-> forallb is_whitespace s = true.
Proof.
  unfold trim. split.
  - intros Hnil. apply trimStart_nil.
    apply (f_equal (@rev N)) in Hnil. rewrite rev_involutive in Hnil. cbn in Hnil.
    apply trimStart_nil in Hnil. rewrite forallb_rev in Hnil.
    by apply trimStart_fixed.
  - intros Hblank. apply trimStart_nil in Hblank. by rewrite Hblank.
Qed.

(** ** Events and what they carry *)

Lemma has_type_exclusive (t1 t2 : string) (e : json) :
  lit t1 <> lit t2 -> has_type t1 e = true -> has_type t2 e = false.
Proof.
  unfold has_type, is_string. intros Hne.
  destruct (field "type" e) as [[]|]; try done.
  rewrite bool_decide_eq_true, bool_decide_eq_false. congruence.
Qed.

Lemma answer_of_cons `{Platform} (e : json) (events : list json) (text : jsstring) :
  answer_of (e :: events) = Ok text ->
  exists here more,
    answer_of [e] = Ok here /\ answer_of events = Ok more /\ text = here ++ more.
Proof.
  cbn [answer_of]. destruct (has_type "chunk" e).
  - destruct (ToString_value (field "content" e)) as [here|]; [|done]. cbn [and_then].
    destruct (answer_of events) as [more|]; [|done]. cbn [and_then]. intros [= <-].
    exists here, more. by rewrite app_nil_r.
  - intros ->. by exists [], text.
Qed.

Lemma answer_of_quiet `{Platform} (events : list json) :
  List.filter (has_type "chunk") events = [] -> answer_of events = Ok [].
Proof.
  induction events as [|e events IH]; [done|]. cbn [List.filter answer_of].
  by destruct (has_type "chunk" e).
Qed.

Lemma last_sources_or_cons (none : value) (e : json) (events : list json) :
  last_sources_or none (e :: events)
  = last_sources_or (last_sources_or none [e]) events.
Proof.
  unfold last_sources_or. cbn [List.filter].
  destruct (has_type "sources" e); [|reflexivity].
  rewrite last_cons. by destruct (last _).
Qed.

(** After the last sources event of a stream, what is remembered is
    the sources array of that event. *)
Lemma last_sources_or_last (none : value) (before after : list json) (e : json) :
  has_type "sources" e = true ->
  List.filter (has_type "sources") after = [] ->
  last_sources_or none (before ++ e :: after) = field "sources" e.
Proof.
  intros He Hafter. unfold last_sources_or.
  rewrite List.filter_app. cbn [List.filter]. rewrite He, Hafter.
  by rewrite last_snoc.
Qed.

(** A cut of a stream that leaves every chunk event on its left comes
    after an event that chunk events follow. *)
Lemma cut_after_chunk (pre post before after : list json) (e : json) :
  pre ++ post = before ++ e :: after ->
  List.filter (has_type "chunk") post = [] ->
  List.filter (has_type "chunk") after <> [] ->
  exists mid, pre = before ++ e :: mid /\ after = mid ++ post.
Proof.
  intros Hcut Hpost Hafter.
  assert (Hlate : forall l, post = l ++ after -> False).
  { intros l ->. rewrite List.filter_app in Hpost. by apply app_eq_nil in Hpost as [_ ?]. }
  revert pre Hcut. induction before as [|b before IH]; intros [|p pre] Hcut; cbn in Hcut.
  - destruct (Hlate [e]). by rewrite Hcut.
  - injection Hcut as -> Hcut. by exists pre.
  - destruct (Hlate (b :: before ++ [e])). rewrite Hcut. cbn. by rewrite <- app_assoc.
  - injection Hcut as -> Hcut. destruct (IH pre Hcut) as (mid & -> & ->). by exists mid.
Qed.

Section Facts.
Context `{Platform}.
Variable apiClient : APIClient.
Variable selectedDocument : option jsstring.

Lemma blocked_iff (st : ChatState) :
  blocked st = true <-> forallb is_whitespace (input st) = true \/ isLoading st = true.
Proof.
  unfold blocked. rewrite orb_true_iff, <- trim_nil. cbn [truthy].
  rewrite negb_involutive, bool_decide_eq_true. reflexivity.
Qed.

(** ** The loop over the stream *)

(** On an event that is not [null], reading a property is reading
    the field. *)
Lemma get_field (e : json) (key : string) :
  e <> JNull -> get e (lit key) = Ok (field key e).
Proof. by destruct e. Qed.

(** The body of the loop on a quiet event: the variables take the
    event in, and a chunk event registers one updater. *)
Lemma on_data_quiet (e : json) (loc : Locals) (st : ChatState) (here : jsstring) :
  quiet e = true ->
  answer_of [e] = Ok here ->
  exists loc',
    on_data e loc st
    = Ok (loc', if has_type "chunk" e then setMessages ShowAnswer st else st)
    /\ fullAnswer loc' = fullAnswer loc ++ here
    /\ sources_ loc' = last_sources_or (sources_ loc) [e].
Proof.
  intros He Hhere.
  assert (Hnull : e <> JNull) by (by intros ->).
  assert (Herr : has_type "error" e = false).
  { destruct e; try done; by apply negb_true_iff in He. }
  unfold on_data. rewrite (get_field e "type") by done. cbn [and_then].
  fold (has_type "sources" e) (has_type "chunk" e) (has_type "error" e).
  rewrite Herr. unfold last_sources_or. cbn [List.filter answer_of] in *.
  destruct (has_type "sources" e) eqn:Hsrc.
  - rewrite (has_type_exclusive "sources" "chunk" e ltac:(done) Hsrc) in *.
    injection Hhere as <-.
    rewrite (get_field e "sources") by done. cbn [and_then].
    eexists. split; [reflexivity|]. cbn. by rewrite app_nil_r.
  - destruct (has_type "chunk" e) eqn:Hchunk.
    + rewrite (get_field e "content") by done. cbn [and_then].
      destruct (ToString_value (field "content" e)) as [text|]; [|done].
      cbn [and_then] in *. injection Hhere as <-.
      eexists. split; [reflexivity|]. cbn. by rewrite app_nil_r.
    + injection Hhere as <-. exists loc. split; [reflexivity|]. cbn. by rewrite app_nil_r.
Qed.

(** A rendering while only updaters of the loop are pending: the
    last message shows the variables as they are at the rendering. *)
Lemma render_showing (loc : Locals) (st : ChatState) (prev : list Message)
  (m : Message) (k : nat) :
  messages st = prev ++ [m] ->
  pending st = replicate k ShowAnswer ->
  messages (render loc st) = prev ++ [if decide (k = 0%nat) then m else showing loc].
Proof.
  intros Hmsgs Hpend. cbn [render messages]. rewrite Hmsgs, Hpend. clear.
  revert m. induction k as [|k IH]; intros m; [done|].
  cbn [replicate foldl call]. unfold set_last at 1. rewrite length_app. cbn [length].
  replace (length prev + 1 - 1)%nat with (length prev + 0)%nat by lia.
  rewrite insert_app_r. cbn. rewrite IH. by destruct k.
Qed.

(** What the loop leaves on display over a run of quiet events,
    whenever React renders: either nothing has changed, or the last
    message shows the whole answer so far and the sources as they were
    at some moment after the last chunk event. *)
Lemma for_await_quiet (events : list json) (text : jsstring) (renders : list bool)
  (loc : Locals) (st : ChatState) (prev : list Message) (m : Message) (k : nat) :
  forallb quiet events = true ->
  answer_of events = Ok text ->
  messages st = prev ++ [m] ->
  pending st = replicate k ShowAnswer ->
  exists st' loc' x,
    for_await renders (gen_of events) loc st = (st', loc', None)
    /\ input st' = input st /\ isLoading st' = isLoading st
    /\ messages (render loc' st') = prev ++ [x]
    /\ ((k = 0%nat /\ List.filter (has_type "chunk") events = [] /\ x = m)
        \/ exists pre post,
             events = pre ++ post
             /\ List.filter (has_type "chunk") post = []
             /\ (k <> 0%nat \/ List.filter (has_type "chunk") pre <> [])
             /\ x = {| role_ := assistant;
                       content := fullAnswer loc ++ text;
                       sources := last_sources_or (sources_ loc) pre |}).
Proof.
  revert text renders loc st m k.
  induction events as [|e events IH];
    intros text renders loc st m k Hquiet Htext Hmsgs Hpend.
  { exists st, loc, (if decide (k = 0%nat) then m else showing loc).
    split; [reflexivity|]. split; [reflexivity|]. split; [reflexivity|].
    split; [by apply render_showing|].
    destruct (decide (k = 0%nat)) as [->|Hk]; [by left|right].
    exists [], []. repeat split; [by left|].
    injection Htext as <-. unfold showing. cbn. by rewrite app_nil_r. }
  cbn [forallb] in Hquiet. apply andb_true_iff in Hquiet as [He Hquiet].
  destruct (answer_of_cons e events text Htext) as (here & more & Hhere & Hmore & ->).
  destruct (on_data_quiet e loc st here He Hhere) as (loc1 & Hdata & Hfull & Hsrc).
  cbn [gen_of foldr for_await]. fold (gen_of events). rewrite Hdata.
  set (st0 := if has_type "chunk" e then setMessages ShowAnswer st else st).
  set (k0 := if has_type "chunk" e then S k else k).
  assert (Hmsgs0 : messages st0 = prev ++ [m]).
  { subst st0. by destruct (has_type "chunk" e). }
  assert (Hpend0 : pending st0 = replicate k0 ShowAnswer).
  { subst st0 k0. destruct (has_type "chunk" e); [|done].
    cbn [setMessages pending]. rewrite Hpend. by rewrite <- replicate_cons_app. }
  assert (Hin0 : input st0 = input st /\ isLoading st0 = isLoading st).
  { subst st0. by destruct (has_type "chunk" e). }
  assert (Hk0 : k0 <> 0%nat -> k <> 0%nat \/ List.filter (has_type "chunk") [e] <> []).
  { subst k0. cbn [List.filter]. destruct (has_type "chunk" e); [by right|by left]. }
  assert (Hk0' : k0 = 0%nat -> k = 0%nat /\ List.filter (has_type "chunk") [e] = []).
  { subst k0. cbn [List.filter]. by destruct (has_type "chunk" e). }
  clearbody st0 k0. clear Hdata.
  assert (Hstep : forall (st1 : ChatState) (m1 : Message) (k1 : nat),
            messages st1 = prev ++ [m1] ->
            pending st1 = replicate k1 ShowAnswer ->
            input st1 = input st /\ isLoading st1 = isLoading st ->
            (k1 = k0 /\ m1 = m)
            \/ (k1 = 0%nat /\ m1 = if decide (k0 = 0%nat) then m else showing loc1) ->
            exists st' loc' x,
              for_await (tl renders) (gen_of events) loc1 st1 = (st', loc', None)
              /\ input st' = input st /\ isLoading st' = isLoading st
              /\ messages (render loc' st') = prev ++ [x]
              /\ ((k = 0%nat /\ List.filter (has_type "chunk") (e :: events) = [] /\ x = m)
                  \/ exists pre post,
                       e :: events = pre ++ post
                       /\ List.filter (has_type "chunk") post = []
                       /\ (k <> 0%nat \/ List.filter (has_type "chunk") pre <> [])
                       /\ x = {| role_ := assistant;
                                 content := fullAnswer loc ++ here ++ more;
                                 sources := last_sources_or (sources_ loc) pre |})).
  { intros st1 m1 k1 Hmsgs1 Hpend1 [Hin1 Hload1] Hcase.
    destruct (IH more (tl renders) loc1 st1 m1 k1 Hquiet Hmore Hmsgs1 Hpend1)
      as (st' & loc' & x & Hrun & Hin & Hload & Hshown & Hx).
    exists st', loc', x. rewrite Hrun, Hin, Hload.
    repeat (split; [done|]).
    rewrite app_assoc, <- Hfull.
    destruct Hx as [(Hk1 & Hnone & ->)|(pre & post & -> & Hpost & Hpre & ->)].
    - (* no chunk event among the events that follow *)
      assert (more = []) as ->.
      { rewrite (answer_of_quiet events Hnone) in Hmore. by injection Hmore. }
      destruct Hcase as [[-> ->]|[_ ->]].
      + destruct (Hk0' Hk1) as [-> Hnot]. left. repeat split.
        change (e :: events) with ([e] ++ events). by rewrite List.filter_app, Hnot, Hnone.
      + destruct (decide (k0 = 0%nat)) as [Hzero|Hpos].
        * destruct (Hk0' Hzero) as [-> Hnot]. left. repeat split.
          change (e :: events) with ([e] ++ events).
          by rewrite List.filter_app, Hnot, Hnone.
        * right. exists [e], events. repeat split; [done|by apply Hk0|].
          unfold showing. by rewrite app_nil_r, Hsrc.
    - (* the display is that of a later moment *)
      right. exists (e :: pre), post. repeat split; [done| |].
      + change (e :: pre) with ([e] ++ pre). rewrite List.filter_app.
        destruct Hpre as [Hk1|Hpre].
        * destruct Hcase as [[-> _]|[-> _]]; [|done].
          destruct (Hk0 Hk1) as [?|Hchunk]; [by left|right].
          intros [? _]%app_eq_nil. done.
        * right. intros [_ ?]%app_eq_nil. done.
      + by rewrite (last_sources_or_cons _ e), Hsrc. }
  destruct (hd false renders).
  - apply (Hstep (render loc1 st0) (if decide (k0 = 0%nat) then m else showing loc1) 0%nat).
    + by apply render_showing.
    + reflexivity.
    + exact Hin0.
    + by right.
  - apply (Hstep st0 m k0); try done. by left.
Qed.

Lemma begin_messages (st : ChatState) :
  pending st = [] ->
  messages (begin st)
  = (messages st ++ [{| role_ := user; content := input st; sources := None |}])
    ++ [{| role_ := assistant; content := []; sources := Some (JArr []) |}]
  /\ pending (begin st) = [] /\ isLoading (begin st) = true /\ input (begin st) = [].
Proof. intros Hpend. unfold begin. cbn. by rewrite Hpend. Qed.

(** Claim C1, amended: for every streaming query whose stream ends
    without an exception (the request succeeds, no event is [null] or an
    error event, and the content of every chunk event has a string to
    give: it is no object with an own [toString] property and no array
    that holds one), and whenever React renders in between, the
    assistant message on display at the end has for content the
    concatenation, in order of arrival, of the contents of all the chunk
    events of the stream, each as a string; its citations are the sources
    array carried by the last sources event of the stream provided a
    chunk event arrives after that event. *)
Theorem handleSubmit_shows_stream
  (renders : list bool) (st : ChatState) (net : Net) (log log' : list Request)
  (events : list json) (text : jsstring) :
  blocked st = false ->
  pending st = [] ->
  queryStream apiClient (stream_query selectedDocument st) net log
  = (Ok (gen_of events), log') ->
  forallb quiet events = true ->
  answer_of events = Ok text ->
  exists st' shown,
    handleSubmit apiClient selectedDocument renders st net log = (Ok st', log')
    /\ messages st'
       = messages st ++ [{| role_ := user; content := input st; sources := None |}; shown]
    /\ role_ shown = assistant
    /\ content shown = text
    /\ (forall before e after,
          events = before ++ e :: after ->
          has_type "sources" e = true ->
          List.filter (has_type "sources") after = [] ->
          List.filter (has_type "chunk") after <> [] ->
          sources shown = field "sources" e).
Proof.
  intros Hgo Hsettled Hstream Hquiet Htext.
  unfold handleSubmit. rewrite Hgo. unfold_io. rewrite Hstream.
  destruct (begin_messages st Hsettled) as (Hbegin & Hnone & _).
  destruct (for_await_quiet events text renders fresh_locals (begin st) _ _ 0
              Hquiet Htext Hbegin Hnone)
    as (st' & loc' & x & Hrun & _ & _ & Hshown & Hx).
  rewrite Hrun. eexists _, x. split; [reflexivity|].
  split. { cbn [render on_finally setIsLoading messages pending] in *.
           rewrite Hshown, <- app_assoc. reflexivity. }
  destruct Hx as [(_ & Hnochunk & ->)|(pre & post & -> & Hpost & Hpre & ->)].
  - repeat split.
    { rewrite (answer_of_quiet events Hnochunk) in Htext. by injection Htext. }
    intros before e after -> _ _ Hchunk. exfalso. apply Hchunk.
    change (e :: after) with ([e] ++ after) in Hnochunk.
    rewrite !List.filter_app in Hnochunk.
    by apply app_eq_nil in Hnochunk as [_ [_ ?]%app_eq_nil].
  - repeat split. intros before e after Hcut He Hlast Hchunk. cbn [sources].
    destruct (cut_after_chunk _ _ _ _ _ Hcut Hpost Hchunk) as (mid & -> & ->).
    apply last_sources_or_last; [done|].
    rewrite List.filter_app in Hlast. by apply app_eq_nil in Hlast as [? _].
Qed.

(** Property X10: a stream without chunk event leaves the placeholder
    of the answer as it is, sources event or not, whenever React
    renders. *)
Lemma handleSubmit_without_chunk
  (renders : list bool) (st : ChatState) (net : Net) (log log' : list Request)
  (events : list json) :
  blocked st = false ->
  pending st = [] ->
  queryStream apiClient (stream_query selectedDocument st) net log
  = (Ok (gen_of events), log') ->
  forallb quiet events = true ->
  List.filter (has_type "chunk") events = [] ->
  exists st',
    handleSubmit apiClient selectedDocument renders st net log = (Ok st', log')
    /\ messages st'
       = messages st
         ++ [{| role_ := user; content := input st; sources := None |};
             {| role_ := assistant; content := []; sources := Some (JArr []) |}].
Proof.
  intros Hgo Hsettled Hstream Hquiet Hnone.
  unfold handleSubmit. rewrite Hgo. unfold_io. rewrite Hstream.
  destruct (begin_messages st Hsettled) as (Hbegin & Hpend & _).
  destruct (for_await_quiet events [] renders fresh_locals (begin st) _ _ 0
              Hquiet (answer_of_quiet events Hnone) Hbegin Hpend)
    as (st' & loc' & x & Hrun & _ & _ & Hshown & Hx).
  rewrite Hrun. eexists. split; [reflexivity|].
  cbn [render on_finally setIsLoading messages pending] in *.
  rewrite Hshown, <- app_assoc.
  destruct Hx as [(_ & _ & ->)|(pre & post & -> & _ & [?|Hpre] & _)]; [done..|].
  rewrite List.filter_app in Hnone. by apply app_eq_nil in Hnone as [? _].
Qed.

(** ** The request of a question *)

(** Claim C6: for every question submitted in the chat interface, the
    request asks for a final context of [top_k = 5] chunks, and carries
    the file name of the selected document whenever one is selected;
    when none is selected it has no [filename] field. *)
Theorem handleSubmit_request
  (renders : list bool) (st : ChatState) (net : Net) (log : list Request) :
  blocked st = false ->
  exists fields,
    snd (handleSubmit apiClient selectedDocument renders st net log)
    = log ++ [{| url := baseURL apiClient ++ lit "/query/stream";
                 meth := POST;
                 headers := [(lit "Content-Type", lit "application/json")];
                 req_body := TextBody (JSON_stringify (JObj fields)) |}]
    /\ own_property (lit "query") fields = Some (JStr (input st))
    /\ own_property (lit "top_k") fields = Some (JNum (lit "5"))
    /\ own_property (lit "filename") fields = (JStr <$> selectedDocument).
Proof.
  intros Hgo. unfold handleSubmit. rewrite Hgo. unfold_io.
  pose proof (ApiFacts.queryStream_sends apiClient
                (stream_query selectedDocument st) net log) as Hreq.
  destruct (queryStream _ _ net log) as [started log'] eqn:Hrun.
  cbn [snd] in Hreq. subst log'.
  eexists. split.
  { destruct started as [g|e]; [destruct (for_await _ _ _ _) as [[? ?] ?]|]; reflexivity. }
  unfold stream_query; cbn [query_ top_k filename stream].
  destruct selectedDocument; repeat split; reflexivity.
Qed.

(** ** The transcript *)

Lemma call_keeps (loc : Locals) (u : updater) (prev : list Message) :
  adds_nonblank u -> users_nonblank prev -> users_nonblank (call loc u prev).
Proof.
  unfold users_nonblank. intros Hu Hprev. destruct u as [m| |m]; cbn [call].
  - apply Forall_app. split; [done|]. by apply Forall_singleton.
  - by apply Forall_insert.
  - apply Forall_app. split; [by apply Forall_take|]. by apply Forall_singleton.
Qed.

(** The state of a chat in which no blank message of the user is on
    display or about to be. *)
Lemma render_keeps (loc : Locals) (st : ChatState) :
  users_nonblank (messages st) /\ Forall adds_nonblank (pending st) ->
  users_nonblank (messages (render loc st)) /\ Forall adds_nonblank (pending (render loc st)).
Proof.
  intros [Hmsgs Hpend]. split; [|constructor]. cbn [render messages].
  revert Hmsgs. generalize (messages st).
  induction Hpend as [|u us Hu _ IH]; intros msgs Hmsgs; [done|].
  cbn [foldl]. apply IH. by apply call_keeps.
Qed.

Lemma setMessages_keeps (u : updater) (st : ChatState) :
  adds_nonblank u ->
  users_nonblank (messages st) /\ Forall adds_nonblank (pending st) ->
  users_nonblank (messages (setMessages u st))
  /\ Forall adds_nonblank (pending (setMessages u st)).
Proof.
  intros Hu [Hmsgs Hpend]. split; [done|]. cbn. apply Forall_app. split; [done|].
  by apply Forall_singleton.
Qed.

Lemma on_data_keeps (data : json) (loc loc' : Locals) (st st' : ChatState) :
  on_data data loc st = Ok (loc', st') ->
  input st' = input st /\ isLoading st' = isLoading st
  /\ (users_nonblank (messages st) /\ Forall adds_nonblank (pending st) ->
      users_nonblank (messages st') /\ Forall adds_nonblank (pending st')).
Proof.
  unfold on_data.
  destruct (get data (lit "type")) as [type|]; cbn [and_then]; [|done].
  destruct (is_string (lit "sources") type).
  { destruct (get data (lit "sources")); cbn [and_then]; [|done].
    by intros [= <- <-]. }
  destruct (is_string (lit "chunk") type).
  { destruct (get data (lit "content")) as [c|]; cbn [and_then]; [|done].
    destruct (ToString_value c); cbn [and_then]; [|done].
    intros [= <- <-]. split; [done|]. split; [done|].
    intros Hok. by apply setMessages_keeps. }
  destruct (is_string (lit "error") type).
  { destruct (get data (lit "message")) as [msg|]; cbn [and_then]; [|done].
    by destruct (new_Error msg). }
  by intros [= <- <-].
Qed.

Lemma finish_keeps (thrown : option exn) (loc : Locals) (st : ChatState) :
  users_nonblank (messages st) /\ Forall adds_nonblank (pending st) ->
  users_nonblank (messages (finish thrown loc st))
  /\ Forall adds_nonblank (pending (finish thrown loc st)).
Proof.
  intros Hok. unfold finish. apply render_keeps.
  destruct thrown as [e|]; [|exact Hok].
  by apply (setMessages_keeps _ st).
Qed.

Lemma begin_keeps (st : ChatState) :
  blocked st = false ->
  users_nonblank (messages st) /\ Forall adds_nonblank (pending st) ->
  users_nonblank (messages (begin st)) /\ Forall adds_nonblank (pending (begin st)).
Proof.
  intros Hgo Hok. unfold begin. apply render_keeps.
  apply setMessages_keeps; [done|].
  apply (setMessages_keeps _ st); [|exact Hok].
  intros _. cbn [content]. unfold nonblank.
  destruct (forallb is_whitespace (input st)) eqn:Hblank; [|done].
  assert (blocked st = true) by (apply blocked_iff; by left). congruence.
Qed.

(** What holds of the component whatever has happened so far. *)
Lemma step_invariant (net : Net) (s : Session) (a : action) :
  (users_nonblank (messages (ui s)) /\ Forall adds_nonblank (pending (ui s)))
  /\ (running s <> None -> isLoading (ui s) = true) ->
  (users_nonblank (messages (ui (step apiClient selectedDocument net s a)))
   /\ Forall adds_nonblank (pending (ui (step apiClient selectedDocument net s a))))
  /\ (running (step apiClient selectedDocument net s a) <> None ->
      isLoading (ui (step apiClient selectedDocument net s a)) = true).
Proof.
  intros [Hok Hload]. destruct a; cbn [step].
  - done.
  - destruct (blocked (ui s)) eqn:Hgo; [done|].
    destruct (attempt _ net (sent s)) as [started sent']. cbn [ui running].
    split; [by apply begin_keeps|done].
  - destruct (running s) as [[loc [|data rest|e]]|] eqn:Hrun; [| | |done].
    + cbn [ui running]. split; [by apply finish_keeps|done].
    + destruct (on_data data loc (ui s)) as [[loc' st']|e] eqn:Hdata.
      * apply on_data_keeps in Hdata as (_ & Hsame & Hkeep). cbn [ui running].
        split; [by apply Hkeep|]. intros _. rewrite Hsame. by apply Hload.
      * cbn [ui running]. split; [by apply finish_keeps|done].
    + cbn [ui running]. split; [by apply finish_keeps|done].
  - destruct (running s) as [[loc g]|] eqn:Hrun; cbn [ui running].
    + split; [by apply render_keeps|]. intros _. by apply Hload.
    + split; [by apply render_keeps|done].
Qed.

Lemma reachable_invariant (net : Net) (s : Session) :
  reachable apiClient selectedDocument net s ->
  (users_nonblank (messages (ui s)) /\ Forall adds_nonblank (pending (ui s)))
  /\ (running s <> None -> isLoading (ui s) = true).
Proof.
  intros [acts ->]. induction acts as [|a acts IH] using rev_ind.
  - cbn. repeat split; [constructor|constructor|done].
  - unfold run. rewrite foldl_snoc. by apply step_invariant.
Qed.

(** Between two runs of [handleSubmit] React has called every updater:
    a submission that is let through finds none pending. *)
Lemma reachable_settled (net : Net) (s : Session) :
  reachable apiClient selectedDocument net s ->
  blocked (ui s) = false -> pending (ui s) = [].
Proof.
  intros Hreach Hgo.
  assert (Hidle : running s = None).
  { destruct (running s) eqn:Hrun; [|done].
    destruct (reachable_invariant net s Hreach) as [_ Hload].
    assert (blocked (ui s) = true); [|congruence].
    apply blocked_iff. right. apply Hload. by rewrite Hrun. }
  clear Hgo. revert Hidle. destruct Hreach as [acts ->].
  induction acts as [|a acts IH] using rev_ind; [done|].
  unfold run in *. rewrite foldl_snoc.
  set (s := foldl (step apiClient selectedDocument net) start acts) in *.
  destruct a; cbn [step].
  - exact IH.
  - destruct (blocked (ui s)); [exact IH|].
    by destruct (attempt _ net (sent s)).
  - destruct (running s) as [[loc [|data rest|e]]|]; [done| |done|].
    + by destruct (on_data data loc (ui s)) as [[loc' st']|e].
    + intros _. by apply IH.
  - by destruct (running s) as [[loc g]|].
Qed.

Lemma handleSubmit_blocked
  (renders : list bool) (st : ChatState) (net : Net) (log : list Request) :
  blocked st = true ->
  handleSubmit apiClient selectedDocument renders st net log = (Ok st, log).
Proof. intros Hstop. unfold handleSubmit. by rewrite Hstop. Qed.

(** Claim C10: in every reachable state of the chat interface every
    message of the user in the transcript has content that is not white
    space only; a submission of the form while the input is empty or
    white space only, or while a previous query is still in flight,
    leaves the list of messages as it is and makes no request. *)
Theorem chat_users_nonblank (net : Net) (s : Session) :
  reachable apiClient selectedDocument net s ->
  users_nonblank (messages (ui s))
  /\ (forallb is_whitespace (input (ui s)) = true \/ running s <> None ->
      step apiClient selectedDocument net s Submit = s
      /\ forall renders,
           handleSubmit apiClient selectedDocument renders (ui s) net (sent s)
           = (Ok (ui s), sent s)).
Proof.
  intros Hreach. destruct (reachable_invariant net s Hreach) as [[Hok _] Hload].
  split; [exact Hok|]. intros Hstop.
  assert (Hblocked : blocked (ui s) = true).
  { apply blocked_iff. destruct Hstop as [Hblank|Hrun]; [by left|right; by apply Hload]. }
  cbn [step]. rewrite Hblocked. split; [done|].
  intros renders. by apply handleSubmit_blocked.
Qed.

(** ** One run of [handleSubmit], event by event *)

Lemma arrivals_idle (net : Net) (renders : list bool) (n : nat)
  (loc : Locals) (st : ChatState) (log : list Request) :
  run apiClient selectedDocument net
      {| ui := render loc st; running := None; sent := log |} (arrivals renders n)
  = {| ui := render loc st; running := None; sent := log |}.
Proof.
  revert renders. induction n as [|n IH]; intros renders; [done|].
  cbn [arrivals]. destruct (hd false renders); cbn; apply IH.
Qed.

Lemma arrivals_idle_after (net : Net) (render_first : bool) (renders : list bool)
  (n : nat) (loc : Locals) (st : ChatState) (log : list Request) :
  foldl (step apiClient selectedDocument net)
        {| ui := render loc st; running := None; sent := log |}
        ((if render_first then [Render] else []) ++ arrivals renders n)
  = {| ui := render loc st; running := None; sent := log |}.
Proof.
  destruct render_first; [|apply arrivals_idle].
  exact (arrivals_idle net renders n loc st log).
Qed.

Lemma arrivals_finish (net : Net) (g : gen) (renders : list bool) (loc : Locals)
  (st : ChatState) (log : list Request) (n : nat) :
  (yields g <= n)%nat ->
  run apiClient selectedDocument net
      {| ui := st; running := Some (loc, g); sent := log |} (arrivals renders n)
  = {| ui := (let '(st', loc', thrown) := for_await renders g loc st in
              finish thrown loc' st');
       running := None; sent := log |}.
Proof.
  revert renders loc st n.
  induction g as [|data rest IH|e]; intros renders loc st n Hn.
  - destruct n; [done|]. unfold run. cbn [arrivals foldl step running ui sent for_await].
    unfold finish. apply arrivals_idle_after.
  - destruct n as [|n]; [cbn in Hn; lia|].
    unfold run. cbn [arrivals for_await yields foldl step running ui sent] in *.
    destruct (on_data data loc st) as [[loc' st']|e].
    + destruct (hd false renders); cbn [app foldl step running ui sent];
        apply IH; lia.
    + unfold finish. apply arrivals_idle_after.
  - destruct n; [done|]. unfold run. cbn [arrivals foldl step running ui sent for_await].
    unfold finish. apply arrivals_idle_after.
Qed.

(** Property X12: [handleSubmit] run to completion is the submission
    followed by the arrival of all the values of the stream, with the
    renderings that come in between. *)
Lemma handleSubmit_event_by_event
  (renders : list bool) (st : ChatState) (net : Net) (log : list Request) :
  blocked st = false ->
  exists n,
    handleSubmit apiClient selectedDocument renders st net log
    = (Ok (ui (run apiClient selectedDocument net
                   {| ui := st; running := None; sent := log |}
                   (Submit :: arrivals renders n))),
       sent (run apiClient selectedDocument net
                 {| ui := st; running := None; sent := log |}
                 (Submit :: arrivals renders n))).
Proof.
  intros Hgo. unfold handleSubmit. rewrite Hgo.
  unfold run. cbn [foldl step ui running sent]. rewrite Hgo.
  unfold_io. destruct (queryStream _ _ net log) as [[g|e] log'].
  - exists (yields g).
    pose proof (arrivals_finish net g renders fresh_locals (begin st) log' (yields g)
                  ltac:(lia)) as Hticks.
    unfold run in Hticks. rewrite Hticks. cbn [ui sent].
    by destruct (for_await renders g fresh_locals (begin st)) as [[st' loc'] [e|]].
  - exists 0%nat. reflexivity.
Qed.

End Facts.

#[local] Existing Instance Host.host.

(** The usual stream: the answer is the text of the chunks and the
    citations are the sources the server sent first. *)
Lemma handleSubmit_shows_stream_witness :
  exists st',
    handleSubmit Sample.client None [true; false; true] Sample.asking
      (Sample.server Sample.usual_stream) []
    = (Ok st',
       snd (queryStream Sample.client (stream_query None Sample.asking)
              (Sample.server Sample.usual_stream) []))
    /\ messages st'
       = [{| role_ := user; content := lit "What is RAG?"; sources := None |};
          {| role_ := assistant; content := lit "Hello";
             sources := field "sources" Sample.sources_event |}].
Proof.
  destruct (handleSubmit_shows_stream (H := Host.host) Sample.client None
              [true; false; true]
              Sample.asking (Sample.server Sample.usual_stream) []
              (snd (queryStream (H := Host.host) Sample.client
                      (stream_query None Sample.asking)
                      (Sample.server Sample.usual_stream) []))
              Sample.usual_stream (lit "Hello") eq_refl eq_refl
              ltac:(vm_compute; reflexivity) eq_refl
              ltac:(vm_compute; reflexivity))
    as (st' & shown & Hrun & Hmsgs & Hrole & Hcontent & Hsources).
  exists st'. split; [exact Hrun|]. rewrite Hmsgs.
  specialize (Hsources [] Sample.sources_event
                [Sample.chunk_event "Hel"; Sample.chunk_event "lo"; Sample.done_event]
                eq_refl eq_refl eq_refl ltac:(discriminate)).
  destruct shown as [r c s]. cbn in Hrole, Hcontent, Hsources.
  rewrite Hrole, Hcontent, Hsources. reflexivity.
Defined.

(** Claim C1 as stated fails: when the stream carries a sources event
    and no chunk event, the citations on display stay empty. *)
Lemma sources_without_answer_not_cited :
  ~ answer_cites_stream_sources Sample.client None.
Proof.
  intros Hclaim.
  destruct (Hclaim [] Sample.asking (Sample.server Sample.no_answer) []
              (snd (queryStream (H := Host.host) Sample.client
                      (stream_query None Sample.asking)
                      (Sample.server Sample.no_answer) []))
              Sample.no_answer eq_refl eq_refl ltac:(vm_compute; reflexivity)
              Sample.sources_event ltac:(left) eq_refl)
    as (st' & text & Hrun & _ & Hlast).
  vm_compute in Hrun. injection Hrun as <-.
  vm_compute in Hlast. discriminate Hlast.
Qed.

(** A question about a selected document. *)
Lemma handleSubmit_request_witness :
  blocked Sample.asking = false
  /\ exists fields,
      snd (handleSubmit Sample.client (Some (lit "ai_introduction.md")) [] Sample.asking
             (Sample.server Sample.usual_stream) [])
      = [{| url := lit "http://localhost:8000/query/stream";
            meth := POST;
            headers := [(lit "Content-Type", lit "application/json")];
            req_body := TextBody (Host.stringify (JObj fields)) |}]
      /\ own_property (lit "query") fields = Some (JStr (lit "What is RAG?"))
      /\ own_property (lit "top_k") fields = Some (JNum (lit "5"))
      /\ own_property (lit "filename") fields = Some (JStr (lit "ai_introduction.md")).
Proof.
  split; [reflexivity|].
  exact (handleSubmit_request Sample.client (Some (lit "ai_introduction.md")) []
           Sample.asking (Sample.server Sample.usual_stream) [] eq_refl).
Defined.

(** While the answer to a first question streams in, a second
    submission changes nothing. *)
Lemma chat_users_nonblank_witness :
  let net := Sample.server Sample.usual_stream in
  let s := run Sample.client None net start
             [Change (lit "What is RAG?"); Submit; Tick; Tick; Render;
              Change (lit "And BM25?")] in
  running s <> None
  /\ users_nonblank (messages (ui s))
  /\ step Sample.client None net s Submit = s.
Proof.
  intros net s.
  assert (Hflight : running s <> None) by (vm_compute; discriminate).
  destruct (chat_users_nonblank Sample.client None net s) as (Hok & Hstop).
  { eexists. reflexivity. }
  destruct (Hstop (or_intror Hflight)) as (Hsame & _).
  exact (conj Hflight (conj Hok Hsame)).
Defined.

End ChatFacts.

(* ===================================================================== *)
(** * Facts about the document manager *)
(* ===================================================================== *)

Module ManagerFacts.
Import JS Manager.

(** A click selects a document, a second click on it clears the
    selection: the chat is asked about one document or about all. *)
Lemma handleSelect_toggles (selectedDoc : option jsstring) (filename : jsstring) :
  handleSelect selectedDoc filename = Some filename
  \/ (selectedDoc = Some filename /\ handleSelect selectedDoc filename = None).
Proof.
  unfold handleSelect. case_bool_decide; [by right|by left].
Qed.

End ManagerFacts.

(* ===================================================================== *)
(** * Facts about the uploader *)
(* ===================================================================== *)

Module UploaderFacts.
Import JS Http Api Uploader Spec JSFacts.

Section Facts.
Context `{Platform}.
Variable apiClient : APIClient.
Variable onUploadSuccess : bool.

(** Property X13: a file that is not accepted is reported and nothing
    is sent. *)
Lemma handleFile_rejects (file : File) (st : UploaderState) (net : Net) (log : list Request) :
  accepted file = false ->
  exists st',
    handleFile apiClient onUploadSuccess file st net log = (Ok st', log)
    /\ type_ (uploadStatus st') = Some error
    /\ uploading st' = uploading st.
Proof.
  intros Hno. unfold handleFile. rewrite Hno. cbn [negb].
  eexists. split; [reflexivity|]. split; reflexivity.
Qed.

(** Property X14: a file that is accepted is uploaded, once, whatever
    the server answers, and the spinner is off at the end. *)
Lemma handleFile_uploads_once (file : File) (st : UploaderState) (net : Net) (log : list Request) :
  accepted file = true ->
  exists st',
    handleFile apiClient onUploadSuccess file st net log
    = (Ok st', log ++ [upload_request apiClient file])
    /\ uploading st' = false.
Proof.
  intros Hyes. unfold handleFile, upload_and_report, uploadDocument, fail_with.
  rewrite Hyes. cbn [negb]. unfold_io. unfold upload_request.
  cases_io; eexists; split; reflexivity.
Qed.

(** Property X15: on a name with a full stop the test of the uploader
    is the test on the extension. *)
Lemma accepted_dotted (file : File) :
  DOT ∈ name file -> accepted file = supported file.
Proof.
  intros Hdot. unfold accepted, fileExt, supported, extension.
  destruct (split_snoc DOT (name file)) as (segs & last & Hsplit & _).
  rewrite Hsplit, pop_snoc. cbn [snd].
  destruct segs as [|seg segs]; [|reflexivity].
  exfalso. by apply (split_single DOT (name file) last).
Qed.

End Facts.

#[local] Existing Instance Host.host.

(** Claim C9, where the code departs from it: a file named [pdf] has
    no extension, so its extension is none of the accepted ones, yet
    [handleFile] takes the whole name for the extension and uploads the
    file instead of reporting an error. *)
Theorem handleFile_uploads_dotless_name :
  extension (name Sample.dotless) = None
  /\ supported Sample.dotless = false
  /\ accepted Sample.dotless = true
  /\ snd (handleFile Sample.client true Sample.dotless Uploader.initial
            Sample.upload_server [])
     = [upload_request Sample.client Sample.dotless]
  /\ (type_ <$> (uploadStatus <$> fst_ok (handleFile Sample.client true Sample.dotless
                     Uploader.initial Sample.upload_server [])))
     = Some (Some success).
Proof.
  repeat split; vm_compute; reflexivity.
Qed.

End UploaderFacts.

(* ===================================================================== *)
(** * Facts about the back end as specified *)
(* ===================================================================== *)

Module BackendFacts.
Import Backend.

(** ** Chunker *)
Section ChunkerFacts.
Context {token : Type}.
Variables (chunk_size chunk_overlap : nat).
Variable text : list token.

Lemma window_slice (start : nat) :
  exists before after,
    text = before ++ take chunk_size (drop start text) ++ after.
Proof.
  exists (take start text), (drop chunk_size (drop start text)).
  by rewrite take_drop, take_drop.
Qed.

Lemma windows_slices (fuel start : nat) :
  Forall (fun chunk => (exists before after, text = before ++ chunk ++ after)
                       /\ (length chunk <= chunk_size)%nat)
         (windows chunk_size chunk_overlap fuel start text).
Proof.
  revert start. induction fuel as [|fuel IH]; intros start; cbn [windows]; [constructor|].
  assert (Hone : (exists before after,
                     text = before ++ take chunk_size (drop start text) ++ after)
                 /\ (length (take chunk_size (drop start text)) <= chunk_size)%nat).
  { split; [apply window_slice|]. rewrite length_take. lia. }
  case_decide; repeat constructor; try apply Hone. apply IH.
Qed.

Lemma windows_head (fuel start : nat) (chunk : list token) :
  windows chunk_size chunk_overlap fuel start text !! 0%nat = Some chunk ->
  chunk = take chunk_size (drop start text).
Proof.
  destruct fuel; cbn [windows]; [done|]. case_decide; cbn; congruence.
Qed.

Lemma windows_neighbours (fuel start i : nat) (c1 c2 : list token) :
  (chunk_overlap < chunk_size)%nat ->
  windows chunk_size chunk_overlap fuel start text !! i = Some c1 ->
  windows chunk_size chunk_overlap fuel start text !! S i = Some c2 ->
  length c1 = chunk_size
  /\ (chunk_overlap < length c2)%nat
  /\ drop (length c1 - chunk_overlap) c1 = take chunk_overlap c2.
Proof.
  intros Hvalid. revert start i.
  induction fuel as [|fuel IH]; intros start i H1 H2; cbn [windows] in *; [done|].
  case_decide as Hend; [done|].
  destruct i as [|i]; [|by eapply IH].
  cbn in H1, H2. injection H1 as <-. apply windows_head in H2 as ->.
  rewrite !length_take, !length_drop.
  split; [lia|]. split; [lia|].
  replace (chunk_size `min` (length text - start) - chunk_overlap)%nat
    with (chunk_size - chunk_overlap)%nat by lia.
  rewrite take_take.
  replace (chunk_overlap `min` chunk_size)%nat with chunk_overlap by lia.
  rewrite skipn_firstn_comm, drop_drop.
  by replace (chunk_size - (chunk_size - chunk_overlap))%nat with chunk_overlap by lia.
Qed.

(** The windows reach the end of the text: the fuel never runs out
    before the last window. *)
Lemma windows_reach_end (fuel start : nat) :
  (chunk_overlap < chunk_size)%nat ->
  (start < length text)%nat ->
  (length text - start <= fuel)%nat ->
  exists chunks final,
    windows chunk_size chunk_overlap fuel start text = chunks ++ [final]
    /\ final `suffix_of` text.
Proof.
  intros Hvalid. revert start.
  induction fuel as [|fuel IH]; intros start Hin Hfuel; [lia|].
  cbn [windows]. case_decide as Hend.
  - exists [], (take chunk_size (drop start text)). split; [done|].
    rewrite take_ge by (rewrite length_drop; lia). apply suffix_drop.
  - destruct (IH (start + (chunk_size - chunk_overlap))%nat) as (chunks & final & -> & Hsuf);
      [lia..|].
    by exists (take chunk_size (drop start text) :: chunks), final.
Qed.

(** Claim C3: for every document text the chunks are each a contiguous
    slice of the text, each within the token budget, and two
    consecutive chunks overlap by the fixed amount: the last
    [chunk_overlap] tokens of the one are the first of the next.  No
    chunk exceeds the configured size. *)
Theorem chunks_bounded_and_overlapping :
  (chunk_overlap < chunk_size)%nat ->
  (forall chunk, chunk ∈ chunk_text chunk_size chunk_overlap text ->
     (exists before after, text = before ++ chunk ++ after)
     /\ (length chunk <= chunk_size)%nat)
  /\ (forall i c1 c2,
        chunk_text chunk_size chunk_overlap text !! i = Some c1 ->
        chunk_text chunk_size chunk_overlap text !! S i = Some c2 ->
        (chunk_overlap <= length c1)%nat /\ (chunk_overlap <= length c2)%nat
        /\ drop (length c1 - chunk_overlap) c1 = take chunk_overlap c2).
Proof.
  intros Hvalid. unfold chunk_text. split.
  - intros chunk Hin. destruct text as [|t0 rest] eqn:Htext; [by apply elem_of_nil in Hin|].
    rewrite <- Htext in *.
    pose proof (windows_slices (length text) 0) as Hall.
    rewrite Forall_forall in Hall. by apply Hall.
  - intros i c1 c2 H1 H2. destruct text as [|t0 rest] eqn:Htext; [done|].
    rewrite <- Htext in *.
    destruct (windows_neighbours _ _ _ _ _ Hvalid H1 H2) as (Hfull & Hlong & Hoverlap).
    split; [lia|]. split; [lia|]. exact Hoverlap.
Qed.

End ChunkerFacts.

(** With the documented defaults every text is chunked within the
    budget and with the overlap. *)
Lemma default_configuration_chunks {token : Type} (text : list token) :
  let chunks := chunk_text DEFAULT_CHUNK_SIZE DEFAULT_CHUNK_OVERLAP text in
  Forall (fun chunk => (length chunk <= DEFAULT_CHUNK_SIZE)%nat) chunks
  /\ (forall i c1 c2, chunks !! i = Some c1 -> chunks !! S i = Some c2 ->
        drop (length c1 - DEFAULT_CHUNK_OVERLAP) c1 = take DEFAULT_CHUNK_OVERLAP c2).
Proof.
  cbn zeta. split.
  - unfold chunk_text. destruct text as [|t0 rest] eqn:Htext; [constructor|].
    rewrite <- Htext. eapply Forall_impl; [apply windows_slices|].
    by intros chunk [_ ?].
  - intros i c1 c2 H1 H2. unfold chunk_text in *.
    destruct text as [|t0 rest] eqn:Htext; [done|]. rewrite <- Htext in *.
    eapply windows_neighbours; [|exact H1|exact H2].
    unfold DEFAULT_CHUNK_SIZE, DEFAULT_CHUNK_OVERLAP. lia.
Qed.

(** A text of ten tokens in windows of four that overlap by one. *)
Lemma chunks_bounded_and_overlapping_witness :
  chunk_text 4 1 (seq 0 10) = [[0; 1; 2; 3]; [3; 4; 5; 6]; [6; 7; 8; 9]]%nat
  /\ (forall i c1 c2,
        chunk_text 4 1 (seq 0 10) !! i = Some c1 ->
        chunk_text 4 1 (seq 0 10) !! S i = Some c2 ->
        (1 <= length c1)%nat /\ (1 <= length c2)%nat
        /\ drop (length c1 - 1) c1 = take 1 c2).
Proof.
  split; [reflexivity|].
  apply (chunks_bounded_and_overlapping 4 1 (seq 0 10)). lia.
Defined.

(** ** Embedding cache *)
Section CacheFacts.
Context {vector : Type}.
Variable hash : string -> string.
Variable provider : nat -> string -> vector.

Local Abbreviation get_embedding := (get_embedding hash provider).
Local Abbreviation after_requests := (after_requests hash provider).
Local Abbreviation embed_all := (embed_all hash provider).

(** A request leaves the vector of its text in the store. *)
Lemma get_embedding_stored (text : string) (s : cache_state) :
  store (snd (get_embedding text s)) !! hash text = Some (fst (get_embedding text s)).
Proof.
  unfold Backend.get_embedding.
  destruct (store s !! hash text) as [v|] eqn:Hhit; cbn; [done|].
  apply lookup_insert_eq.
Qed.

(** A request for a text whose entry is in the store returns the entry
    and changes nothing: the provider is not called. *)
Lemma get_embedding_hit (text : string) (s : cache_state) (v : vector) :
  store s !! hash text = Some v -> get_embedding text s = (v, s).
Proof. intros Hhit. unfold Backend.get_embedding. by rewrite Hhit. Qed.

(** No request overwrites an entry. *)
Lemma get_embedding_keeps (text : string) (s : cache_state) (key : string) (v : vector) :
  store s !! key = Some v -> store (snd (get_embedding text s)) !! key = Some v.
Proof.
  intros Hkey. unfold Backend.get_embedding.
  destruct (store s !! hash text) as [w|] eqn:Hhit; cbn; [done|].
  rewrite lookup_insert_ne; [done|]. intros <-. congruence.
Qed.

Lemma after_requests_keeps (texts : list string) (s : cache_state) (key : string) (v : vector) :
  store s !! key = Some v -> store (after_requests texts s) !! key = Some v.
Proof.
  revert s. induction texts as [|text texts IH]; intros s Hkey; [done|].
  cbn. apply IH. by apply get_embedding_keeps.
Qed.

Lemma embed_all_stored (texts : list string) (s : cache_state) (i : nat)
  (text : string) (v : vector) :
  store s !! hash text = Some v ->
  texts !! i = Some text ->
  fst (embed_all texts s) !! i = Some v.
Proof.
  revert s i. induction texts as [|t texts IH]; intros s i Hhit Hi; [done|].
  cbn [Backend.embed_all].
  destruct (Backend.get_embedding hash provider t s) as [w s1] eqn:Hget.
  destruct (Backend.embed_all hash provider texts s1) as [vs s2] eqn:Hall.
  destruct i as [|i]; cbn in *.
  - injection Hi as ->. rewrite (get_embedding_hit _ _ _ Hhit) in Hget. congruence.
  - pose proof (IH s1 i) as IHi. rewrite Hall in IHi. apply IHi; [|done].
    replace s1 with (snd (get_embedding t s)) by (by rewrite Hget).
    by apply get_embedding_keeps.
Qed.

Lemma embed_all_later (texts : list string) (s : cache_state) (i j : nat) (text : string) :
  (i <= j)%nat ->
  texts !! i = Some text -> texts !! j = Some text ->
  fst (embed_all texts s) !! i = fst (embed_all texts s) !! j.
Proof.
  revert s i j. induction texts as [|t texts IH]; intros s i j Hij Hi Hj; [done|].
  cbn [Backend.embed_all].
  destruct (Backend.get_embedding hash provider t s) as [w s1] eqn:Hget.
  destruct (Backend.embed_all hash provider texts s1) as [vs s2] eqn:Hall.
  destruct i as [|i], j as [|j]; cbn in *; try lia; [done| |].
  - injection Hi as ->. symmetry.
    pose proof (embed_all_stored texts s1 j text w) as Hlater.
    rewrite Hall in Hlater. apply Hlater; [|done].
    pose proof (get_embedding_stored text s) as Hst. by rewrite Hget in Hst.
  - pose proof (IH s1 i j) as IHij. rewrite Hall in IHij. apply IHij; [lia|done..].
Qed.

(** Claim C4: the cache keys the entry of a chunk by the hash of its
    text and keeps the vector in its store, so that a second request for
    the same text, whatever was requested in between, returns the stored
    vector and computes nothing: the store and the number of calls to
    the provider stay as they were.  The vector is therefore a function
    of the text: among the chunks of a document, two with equal text get
    equal vectors. *)
Theorem cached_embedding_reused (s : cache_state) (text : string) (between : list string) :
  let first := get_embedding text s in
  let later := after_requests between (snd first) in
  store (snd first) !! hash text = Some (fst first)
  /\ get_embedding text later = (fst first, later)
  /\ (forall (texts : list string) (i j : nat) (t : string),
        texts !! i = Some t -> texts !! j = Some t ->
        fst (embed_all texts s) !! i = fst (embed_all texts s) !! j).
Proof.
  cbn zeta. split; [apply get_embedding_stored|]. split.
  - apply get_embedding_hit, after_requests_keeps, get_embedding_stored.
  - intros texts i j t Hi Hj. destruct (Nat.le_ge_cases i j).
    + by eapply embed_all_later.
    + symmetry. by eapply embed_all_later.
Qed.

End CacheFacts.

(** Two chunks with the same text, a provider that answers differently
    at every call: the vectors are the same. *)
Lemma cached_embedding_reused_witness :
  let provider := fun (n : nat) (text : string) => (n, String.length text) in
  let s := {| store := ∅; provider_calls := 0 |} in
  fst (embed_all id provider ["intro"; "body"; "intro"]%string s) !! 0%nat
  = fst (embed_all id provider ["intro"; "body"; "intro"]%string s) !! 2%nat.
Proof.
  intros provider s.
  destruct (cached_embedding_reused id provider s "intro"%string []) as (_ & _ & Hsame).
  apply (Hsame ["intro"; "body"; "intro"]%string 0%nat 2%nat "intro"%string);
    reflexivity.
Defined.

(** ** Hybrid retriever *)
Section RetrieverFacts.
Variables (vector_weight keyword_weight : Q).

Lemma outranks_total : Total outranks.
Proof.
  intros a b. unfold outranks.
  destruct (Qlt_le_dec (snd a) (snd b)) as [Hlt|Hle]; [right|left]; [|done].
  by apply Qlt_le_weak.
Qed.

Lemma outranks_transitive : Transitive outranks.
Proof. intros a b c Hab Hbc. unfold outranks in *. by eapply Qle_trans. Qed.

Lemma rank_sorted (candidates : list candidate) :
  StronglySorted outranks (rank vector_weight keyword_weight candidates).
Proof.
  apply (StronglySorted_merge_sort outranks
           (Transitive0 := outranks_transitive) (Total0 := outranks_total)).
Qed.

Lemma rank_permutation (candidates : list candidate) :
  rank vector_weight keyword_weight candidates
  ≡ₚ (fun c => (c, final_score vector_weight keyword_weight c)) <$> candidates.
Proof. apply merge_sort_Permutation. Qed.

(** Claim C2: for every query the final score of each candidate chunk
    is the weighted sum, with the fixed weights, of its
    vector-similarity score and of its keyword-frequency score; the
    candidates are ranked by this merged score, and the result set is
    the head of the ranking: what it holds is in order of score, and
    nothing left out scores higher than anything kept. *)
Theorem hybrid_search_ranked (top_k : nat) (candidates : list candidate) :
  let ranking := rank vector_weight keyword_weight candidates in
  let result := hybrid_search vector_weight keyword_weight top_k candidates in
  (forall c score, (c, score) ∈ ranking ->
     c ∈ candidates
     /\ score = (vector_weight * vector_score c + keyword_weight * keyword_score c)%Q)
  /\ (forall c, c ∈ candidates ->
        (c, (vector_weight * vector_score c + keyword_weight * keyword_score c)%Q) ∈ ranking)
  /\ StronglySorted (fun a b => (snd b <= snd a)%Q) ranking
  /\ ranking = result ++ drop top_k ranking
  /\ (forall kept left_out, kept ∈ result -> left_out ∈ drop top_k ranking ->
        (snd left_out <= snd kept)%Q).
Proof.
  cbn zeta. unfold hybrid_search.
  pose proof (rank_sorted candidates) as Hsorted.
  pose proof (rank_permutation candidates) as Hperm.
  split; [|split; [|split; [|split]]].
  - intros c score Hin. rewrite Hperm in Hin.
    by apply list_elem_of_fmap in Hin as (c' & [= -> ->] & Hin).
  - intros c Hin. rewrite Hperm. apply list_elem_of_fmap. by exists c.
  - exact Hsorted.
  - by rewrite take_drop.
  - intros kept left_out Hkept Hleft.
    rewrite <- (take_drop top_k (rank _ _ _)) in Hsorted.
    exact (StronglySorted_app_1_elem_of _ _ _ _ _ Hsorted Hkept Hleft).
Qed.

End RetrieverFacts.

(** Three candidates, the two best kept: the third scores lower than
    the first. *)
Lemma hybrid_search_ranked_witness :
  let score := final_score (7 # 10) (3 # 10) in
  let kept := (Sample.strong_match, score Sample.strong_match) in
  let left_out := (Sample.weak_match, score Sample.weak_match) in
  kept ∈ hybrid_search (7 # 10) (3 # 10) 2 Sample.candidates
  /\ left_out ∈ drop 2 (rank (7 # 10) (3 # 10) Sample.candidates)
  /\ (snd left_out <= snd kept)%Q.
Proof.
  intros score kept left_out.
  assert (Hkept : kept ∈ hybrid_search (7 # 10) (3 # 10) 2 Sample.candidates)
    by (vm_compute; apply list_elem_of_here).
  assert (Hleft : left_out ∈ drop 2 (rank (7 # 10) (3 # 10) Sample.candidates))
    by (vm_compute; apply list_elem_of_here).
  destruct (hybrid_search_ranked (7 # 10) (3 # 10) 2 Sample.candidates)
    as (_ & _ & _ & _ & Hbest).
  exact (conj Hkept (conj Hleft (Hbest kept left_out Hkept Hleft))).
Defined.

End BackendFacts.

(* ===================================================================== *)
(** * More on the API client: answers, failures of the network, streams *)
(* ===================================================================== *)

Module ApiBehaviour.
Import JS Http Api Spec JSFacts ApiFacts.

Section Facts.
Context `{Platform}.
Variable this : APIClient.

(** Property X1: on a response that is ok, [uploadDocument], [query],
    [listDocuments] and [deleteDocument] hand back what
    [response.json()] gives, the parsed body or the exception of the
    reader, and look at nothing else of the response. *)
Theorem ok_response_returns_body
  (net : Net) (log : list Request) (response : Response)
  (file : File) (request : QueryRequest) (doc encoded : jsstring) :
  (forall req, net log req = Ok response) ->
  ok response = true ->
  encodeURIComponent doc = Ok encoded ->
  fst (uploadDocument this file net log) = json_ response
  /\ fst (query this request net log) = json_ response
  /\ fst (listDocuments this net log) = json_ response
  /\ fst (deleteDocument this doc net log) = json_ response.
Proof.
  intros Hnet Hok Henc.
  unfold uploadDocument, query, listDocuments, deleteDocument. unfold_io.
  rewrite Henc, !Hnet, Hok. cbn [negb]. by repeat split.
Qed.

(** Property X2: [healthCheck] does not look at the status: whatever
    the response, ok or not, it hands back what [response.json()] gives
    and raises no [Error] of its own. *)
Theorem healthCheck_ignores_status
  (net : Net) (log : list Request) (response : Response) :
  (forall req, net log req = Ok response) ->
  healthCheck this net log
  = (json_ response,
     log ++ [{| url := baseURL this ++ lit "/"; meth := GET; headers := [];
                req_body := NoBody |}]).
Proof.
  intros Hnet. unfold healthCheck. unfold_io. rewrite Hnet.
  by destruct (json_ response).
Qed.

(** Property X3: when [fetch] itself is rejected (the server cannot be
    reached), each of the six operations throws that very exception
    after its one request: none catches it, none tries again. *)
Theorem rejected_fetch_propagates
  (net : Net) (log : list Request) (e : exn)
  (file : File) (request : QueryRequest) (doc encoded : jsstring) :
  (forall req, net log req = Throw e) ->
  encodeURIComponent doc = Ok encoded ->
  fails_once (uploadDocument this file) net log e
  /\ fails_once (query this request) net log e
  /\ fails_once (queryStream this request) net log e
  /\ fails_once (listDocuments this) net log e
  /\ fails_once (deleteDocument this doc) net log e
  /\ fails_once (healthCheck this) net log e.
Proof.
  intros Hnet Henc. unfold fails_once.
  repeat split; eexists.
  all: unfold uploadDocument, query, queryStream, listDocuments, deleteDocument,
         healthCheck.
  all: unfold_io; rewrite ?Henc, Hnet; reflexivity.
Qed.

(** Property X4: a response that is ok but has no body makes
    [queryStream] throw the error ['No response body'] at the first
    value asked of it; no event is yielded. *)
Theorem queryStream_without_body
  (request : QueryRequest) (net : Net) (log : list Request) (response : Response) :
  (forall req, net log req = Ok response) ->
  ok response = true ->
  body_ response = None ->
  fails_once (queryStream this request) net log (Error (lit "No response body")).
Proof.
  intros Hnet Hok Hbody. eexists.
  unfold queryStream. unfold_io. rewrite Hnet, Hok, Hbody. reflexivity.
Qed.

(** Property X5: a file name that [encodeURIComponent] refuses (a lone
    surrogate) makes [deleteDocument] throw before any request is made. *)
Theorem deleteDocument_malformed_name
  (doc : jsstring) (e : exn) (net : Net) (log : list Request) :
  encodeURIComponent doc = Throw e ->
  deleteDocument this doc net log = (Throw e, log).
Proof.
  intros Henc. unfold deleteDocument. unfold_io. by rewrite Henc.
Qed.

(** ** Streams that break, lines that do not end *)

Lemma yield_lines_parsed_then_thrown (lines : list jsstring) (e : exn) :
  yield_lines lines (GThrow e) = parsed_then_thrown (data_payloads lines) e.
Proof.
  unfold data_payloads. induction lines as [|line lines IH]; [reflexivity|].
  cbn [yield_lines List.filter].
  destruct (startsWith (lit "data: ") line); [|exact IH].
  cbn [map parsed_then_thrown]. rewrite IH. reflexivity.
Qed.

Lemma read_loop_broken_after (reads : list (list byte)) (e : exn)
  (decoder : decoder_state) (buffer : jsstring) :
  LF ∉ buffer ->
  read_loop decoder buffer (broken_after reads e)
  = yield_lines (complete_lines (buffer ++ snd (decode decoder (concat reads))))
                (GThrow e).
Proof.
  revert decoder buffer. induction reads as [|value reads IH]; intros decoder buffer Hfree.
  - cbn. rewrite app_nil_r, complete_lines_free by assumption. reflexivity.
  - cbn [broken_after foldr concat read_loop]. rewrite decode_app.
    destruct (decode decoder value) as [decoder1 text1].
    fold (broken_after reads e).
    destruct (pop (split LF (buffer ++ text1))) as [lines last] eqn:Hpop.
    rewrite kept_buffer, IH.
    2:{ pose proof (unfinished_line_free (buffer ++ text1)) as Hu.
        unfold unfinished_line in Hu. by rewrite Hpop in Hu. }
    destruct (decode decoder1 (concat reads)) as [decoder2 text2]. cbn [snd].
    rewrite <- yield_lines_app, app_assoc, (complete_lines_app (buffer ++ text1)).
    unfold complete_lines at 2, unfinished_line. rewrite Hpop. reflexivity.
Qed.

(** Property X6: when a read of the response body is rejected in the
    middle of a stream, [queryStream], after its one request, returns a
    generator that first yields the events of all the lines completed by
    the bytes read so far, then throws the exception of the read; the
    line left unfinished is lost. *)
Theorem queryStream_broken_stream
  (request : QueryRequest) (net : Net) (log : list Request) (response : Response)
  (reads : list (list byte)) (e : exn) :
  net log (stream_request this request) = Ok response ->
  ok response = true ->
  body_ response = Some (broken_after reads e) ->
  queryStream this request net log
  = (Ok (parsed_then_thrown
           (data_payloads (complete_lines (snd (decode new_TextDecoder (concat reads))))) e),
     log ++ [stream_request this request]).
Proof.
  intros Hnet Hok Hbody.
  rewrite (queryStream_reads this request net log response _ Hnet Hok Hbody).
  rewrite read_loop_broken_after by apply not_elem_of_nil.
  by rewrite yield_lines_parsed_then_thrown.
Qed.

Lemma split_before_last (s tail : jsstring) :
  LF ∉ tail -> split LF (s ++ LF :: tail) = split LF s ++ [tail].
Proof.
  intros Hfree.
  destruct (split_snoc LF s) as (segs & last & Hs & Hlast).
  rewrite (split_app _ _ _ _ _ Hs), Hs, <- app_assoc. f_equal.
  clear Hs. induction last as [|c last IH].
  - cbn [app split]. destruct (N.eqb_spec LF LF); [|done]. by rewrite split_free.
  - apply not_elem_of_cons in Hlast as [Hc Hlast]. cbn [app split].
    destruct (N.eqb_spec c LF); [congruence|]. by rewrite IH.
Qed.

(** Property X7: what follows the last line feed of a stream never
    reaches the consumer of [queryStream]: the events of the generator it
    returns are those of the lines before that line feed, and a final
    event whose line is not ended by a line feed is dropped without a
    notice. *)
Theorem unterminated_line_dropped
  (request : QueryRequest) (net : Net) (log : list Request) (response : Response)
  (reads : list (list byte)) (text tail : jsstring) :
  net log (stream_request this request) = Ok response ->
  ok response = true ->
  body_ response = Some (stream_of reads) ->
  snd (decode new_TextDecoder (concat reads)) = text ++ LF :: tail ->
  LF ∉ tail ->
  queryStream this request net log
  = (Ok (parsed (data_payloads (split LF text))), log ++ [stream_request this request]).
Proof.
  intros Hnet Hok Hbody Htext Hfree.
  rewrite (queryStream_reads this request net log response _ Hnet Hok Hbody).
  rewrite read_loop_whole by apply not_elem_of_nil.
  rewrite yield_lines_parsed. cbn [app]. rewrite Htext.
  unfold complete_lines. by rewrite split_before_last, pop_snoc.
Qed.

End Facts.

#[local] Existing Instance Host.host.

(** A successful upload hands back the answer of the server. *)
Lemma ok_response_returns_body_witness :
  fst (uploadDocument Sample.client Sample.notes Sample.upload_server [])
  = Ok Sample.upload_receipt.
Proof.
  apply (ok_response_returns_body Sample.client Sample.upload_server []
           {| ok := true; json_ := Ok Sample.upload_receipt; body_ := None |}
           Sample.notes
           {| query_ := []; top_k := None; filename := None; stream := None |}
           (lit "notes.txt") (lit "notes.txt")).
  - intros req. reflexivity.
  - reflexivity.
  - reflexivity.
Defined.

(** A health check answered with a refusal returns the refusal. *)
Lemma healthCheck_ignores_status_witness :
  fst (healthCheck Sample.client (answering Sample.refusal) [])
  = Ok (JObj [(lit "detail", JStr (lit "Unsupported file type"))]).
Proof.
  rewrite (healthCheck_ignores_status Sample.client (answering Sample.refusal) []
             Sample.refusal (fun _ => eq_refl)).
  reflexivity.
Defined.

(** A server that is down. *)
Lemma rejected_fetch_propagates_witness :
  fails_once (listDocuments Sample.client) Sample.unreachable [] Sample.network_error.
Proof.
  apply (rejected_fetch_propagates Sample.client Sample.unreachable []
           Sample.network_error Sample.notes
           {| query_ := []; top_k := None; filename := None; stream := None |}
           (lit "notes.txt") (lit "notes.txt")).
  - intros req. reflexivity.
  - reflexivity.
Defined.

Lemma queryStream_without_body_witness :
  fails_once (queryStream Sample.client
                {| query_ := lit "What is RAG?"; top_k := Some 5; filename := None;
                   stream := Some true |})
             Sample.upload_server [] (Error (lit "No response body")).
Proof.
  apply (queryStream_without_body Sample.client _ Sample.upload_server []
           {| ok := true; json_ := Ok Sample.upload_receipt; body_ := None |}).
  - intros req. reflexivity.
  - reflexivity.
  - reflexivity.
Defined.

(** A name with a lone surrogate. *)
Lemma deleteDocument_malformed_name_witness :
  deleteDocument Sample.client [0xD800] Sample.upload_server []
  = (Throw Host.URIError, []).
Proof.
  apply (deleteDocument_malformed_name Sample.client [0xD800] Host.URIError).
  reflexivity.
Defined.

(** The connection is lost in the middle of the third line of the
    usual stream: the consumer gets the events of the first two lines,
    then the failure of the read. *)
Lemma queryStream_broken_stream_witness :
  let bytes := Host.sse Sample.usual_stream in
  let request := {| query_ := lit "What is RAG?"; top_k := Some 5; filename := None;
                    stream := Some true |} in
  let response := {| ok := true; json_ := Throw Host.SyntaxError;
                     body_ := Some (broken_after [take 200 bytes; take 10 (drop 200 bytes)]
                                      Sample.network_error) |} in
  queryStream Sample.client request (answering response) []
  = (Ok (GYield Sample.sources_event
           (GYield (Sample.chunk_event "Hel") (GThrow Sample.network_error))),
     [stream_request Sample.client request]).
Proof.
  intros bytes request response.
  rewrite (queryStream_broken_stream Sample.client request (answering response) []
             response [take 200 bytes; take 10 (drop 200 bytes)] Sample.network_error
             eq_refl eq_refl eq_refl).
  vm_compute. reflexivity.
Defined.

(** The usual stream without the line feed of its last line: the
    event of that line is not delivered. *)
Lemma unterminated_line_dropped_witness :
  let bytes := Host.sse Sample.usual_stream in
  let request := {| query_ := lit "What is RAG?"; top_k := Some 5; filename := None;
                    stream := Some true |} in
  let response := streamed true (Throw Host.SyntaxError) [take (length bytes - 1) bytes] in
  queryStream Sample.client request (answering response) []
  = (Ok (gen_of [Sample.sources_event; Sample.chunk_event "Hel"; Sample.chunk_event "lo"]),
     [stream_request Sample.client request]).
Proof.
  intros bytes request response.
  rewrite (unterminated_line_dropped Sample.client request (answering response) []
             response [take (length bytes - 1) bytes]
             (lit "data: " ++ Host.stringify Sample.sources_event ++ [LF]
              ++ lit "data: " ++ Host.stringify (Sample.chunk_event "Hel") ++ [LF]
              ++ lit "data: " ++ Host.stringify (Sample.chunk_event "lo"))
             (lit "data: " ++ Host.stringify Sample.done_event)
             eq_refl eq_refl eq_refl).
  - vm_compute. reflexivity.
  - vm_compute. reflexivity.
  - refine (bool_decide_unpack _ _). vm_compute. reflexivity.
Defined.

End ApiBehaviour.

(* ===================================================================== *)
(** * More on the chat: failures, the shape of the transcript *)
(* ===================================================================== *)

Module ChatBehaviour.
Import JS Http Api Chat Spec JSFacts ChatFacts.

(** ** Transcripts of exchanges *)

Lemma exchanges_snoc (n : nat) : exchanges (S n) = exchanges n ++ [user; assistant].
Proof.
  unfold exchanges. rewrite replicate_S_end, concat_app. done.
Qed.

Lemma exchanges_length (n : nat) : length (exchanges n) = (2 * n)%nat.
Proof.
  induction n as [|n IH]; [done|]. rewrite exchanges_snoc, length_app, IH. cbn. lia.
Qed.

(** Putting an answer of the assistant in the place of the last message
    of a transcript of exchanges leaves a transcript of exchanges. *)
Lemma answer_replaced (msgs : list Message) (m : Message) (n : nat) :
  role_ <$> msgs = exchanges (S n) ->
  role_ m = assistant ->
  role_ <$> (slice_but_last msgs ++ [m]) = exchanges (S n).
Proof.
  intros Hroles Hm. unfold slice_but_last.
  rewrite fmap_app, fmap_take, Hroles. cbn [fmap list_fmap]. rewrite Hm.
  assert (Hlen : length msgs = (2 * S n)%nat).
  { by rewrite <- (length_fmap role_), Hroles, exchanges_length. }
  rewrite Hlen, exchanges_snoc.
  replace (2 * S n - 1)%nat with (length (exchanges n) + 1)%nat
    by (rewrite exchanges_length; lia).
  rewrite take_app_add. cbn. by rewrite <- app_assoc.
Qed.

Lemma set_last_replaces (msgs : list Message) (m : Message) :
  msgs <> [] -> set_last m msgs = slice_but_last msgs ++ [m].
Proof.
  intros Hne. destruct msgs as [|x msgs _] using rev_ind; [done|].
  unfold set_last, slice_but_last. rewrite length_app. cbn [length].
  replace (length msgs + 1 - 1)%nat with (length msgs + 0)%nat by lia.
  rewrite insert_app_r. cbn. by rewrite Nat.add_0_r, take_app_length.
Qed.

Lemma call_keeps_exchanges (loc : Locals) (u : updater) (msgs : list Message) (n : nat) :
  role_ <$> msgs = exchanges n ->
  u = ShowAnswer \/ (exists m, u = ReplaceLast m /\ role_ m = assistant /\ n <> 0%nat) ->
  role_ <$> call loc u msgs = exchanges n.
Proof.
  intros Hroles Hu. destruct n as [|n].
  - destruct msgs; [|done]. destruct Hu as [->|(m & -> & _ & ?)]; done.
  - assert (msgs <> []) by (intros ->; by rewrite exchanges_snoc in Hroles;
                            destruct (exchanges n)).
    destruct Hu as [->|(m & -> & Hm & _)]; cbn [call].
    + rewrite set_last_replaces by done. by apply answer_replaced.
    + by apply answer_replaced.
Qed.

Lemma calls_keep_exchanges (loc : Locals) (us : list updater) (msgs : list Message)
  (n : nat) :
  role_ <$> msgs = exchanges n ->
  Forall (fun u => u = ShowAnswer) us ->
  role_ <$> foldl (fun prev u => call loc u prev) msgs us = exchanges n.
Proof.
  intros Hroles Hus. revert msgs Hroles.
  induction Hus as [|u us -> _ IH]; intros msgs Hroles; [done|].
  cbn [foldl]. apply IH. apply call_keeps_exchanges; [done|by left].
Qed.

Section Facts.
Context `{Platform}.
Variable apiClient : APIClient.
Variable selectedDocument : option jsstring.

(** ** The events that end a run *)

(** The body of the loop on an event: it throws what the event
    raises, or takes the event in, a chunk event registering one
    updater. *)
Lemma on_data_outcome (e : json) (loc : Locals) (st : ChatState) :
  match raises e with
  | Some x => on_data e loc st = Throw x
  | None =>
      exists loc',
        on_data e loc st
        = Ok (loc', if has_type "chunk" e then setMessages ShowAnswer st else st)
  end.
Proof.
  assert (e = JNull \/ e <> JNull) as [->|Hnull]
    by (destruct e; (by left) || (by right)).
  { reflexivity. }
  replace (raises e)
    with (if has_type "chunk" e then
            match ToString_value (field "content" e) with
            | Ok _ => None
            | Throw x => Some x
            end
          else if has_type "error" e then
            match new_Error (field "message" e) with
            | Ok x | Throw x => Some x
            end
          else None)
    by (by destruct e).
  unfold on_data. rewrite (get_field e "type") by done. cbn [and_then].
  fold (has_type "sources" e) (has_type "chunk" e) (has_type "error" e).
  destruct (has_type "sources" e) eqn:Hsrc.
  - rewrite (has_type_exclusive "sources" "chunk" e ltac:(done) Hsrc).
    rewrite (has_type_exclusive "sources" "error" e ltac:(done) Hsrc).
    rewrite (get_field e "sources") by done. cbn [and_then]. by eexists.
  - destruct (has_type "chunk" e) eqn:Hchunk.
    + rewrite (get_field e "content") by done. cbn [and_then].
      destruct (ToString_value (field "content" e)); cbn [and_then]; [by eexists|done].
    + destruct (has_type "error" e); [|by eexists].
      rewrite (get_field e "message") by done. cbn [and_then].
      by destruct (new_Error (field "message" e)).
Qed.

Lemma showing_two (loc : Locals) (prev : list Message) (m : Message) (k : nat) :
  foldl (fun prev u => call loc u prev) (prev ++ [m]) (replicate k ShowAnswer)
  = prev ++ [if decide (k = 0%nat) then m else showing loc].
Proof.
  exact (render_showing loc
           {| messages := prev ++ [m]; input := []; isLoading := false;
              pending := replicate k ShowAnswer |} prev m k eq_refl eq_refl).
Qed.

(** Whatever the stream and whenever React renders, the loop leaves the
    transcript as it was but for its last message, still an answer of
    the assistant, and ends on the first failure of the stream. *)
Lemma for_await_shape (g : gen) (renders : list bool) (loc : Locals) (st : ChatState)
  (prev : list Message) (m : Message) (k : nat) :
  messages st = prev ++ [m] ->
  role_ m = assistant ->
  pending st = replicate k ShowAnswer ->
  exists st' loc' m' k',
    for_await renders g loc st = (st', loc', failure g)
    /\ messages st' = prev ++ [m'] /\ role_ m' = assistant
    /\ pending st' = replicate k' ShowAnswer
    /\ input st' = input st /\ isLoading st' = isLoading st.
Proof.
  revert renders loc st m k.
  induction g as [|data rest IH|e]; intros renders loc st m k Hmsgs Hrole Hpend.
  - by exists st, loc, m, k.
  - cbn [for_await failure]. pose proof (on_data_outcome data loc st) as Hdata.
    destruct (raises data) as [x|].
    { rewrite Hdata. by exists st, loc, m, k. }
    destruct Hdata as (loc1 & ->).
    set (st0 := if has_type "chunk" data then setMessages ShowAnswer st else st).
    set (k0 := if has_type "chunk" data then S k else k).
    assert (Hmsgs0 : messages st0 = prev ++ [m]).
    { subst st0. by destruct (has_type "chunk" data). }
    assert (Hpend0 : pending st0 = replicate k0 ShowAnswer).
    { subst st0 k0. destruct (has_type "chunk" data); [|done].
      cbn [setMessages pending]. rewrite Hpend. by rewrite <- replicate_cons_app. }
    assert (Hin0 : input st0 = input st /\ isLoading st0 = isLoading st).
    { subst st0. by destruct (has_type "chunk" data). }
    destruct Hin0 as [Hin0 Hload0]. clearbody st0 k0.
    destruct (hd false renders).
    + destruct (IH (tl renders) loc1 (render loc1 st0)
                  (if decide (k0 = 0%nat) then m else showing loc1) 0%nat)
        as (st' & loc' & m' & k' & Hrun & ? & ? & ? & Hin & Hload).
      * by apply render_showing.
      * by destruct (decide _).
      * reflexivity.
      * exists st', loc', m', k'. rewrite Hrun, Hin, Hload. by repeat split.
    + destruct (IH (tl renders) loc1 st0 m k0 Hmsgs0 Hrole Hpend0)
        as (st' & loc' & m' & k' & Hrun & ? & ? & ? & Hin & Hload).
      exists st', loc', m', k'. rewrite Hrun, Hin, Hload. by repeat split.
  - by exists st, loc, m, k.
Qed.

(** The end of a run on such a state. *)
Lemma finish_shape (thrown : option exn) (loc : Locals) (st : ChatState)
  (prev : list Message) (m : Message) (k : nat) :
  messages st = prev ++ [m] ->
  pending st = replicate k ShowAnswer ->
  messages (finish thrown loc st)
  = prev ++ [match thrown with
             | Some e => failure_message e
             | None => if decide (k = 0%nat) then m else showing loc
             end]
  /\ pending (finish thrown loc st) = []
  /\ isLoading (finish thrown loc st) = false
  /\ input (finish thrown loc st) = input st.
Proof.
  intros Hmsgs Hpend. unfold finish.
  destruct thrown as [e|]; cbn [render on_finally on_catch setIsLoading setMessages
                                  messages pending isLoading input];
    rewrite Hmsgs, Hpend; repeat split.
  - rewrite foldl_app, showing_two. cbn [foldl call]. unfold slice_but_last.
    rewrite length_app. cbn [length].
    replace (length prev + 1 - 1)%nat with (length prev) by lia.
    by rewrite take_app_length.
  - apply showing_two.
Qed.

(** Property X8: the state in which a submission that is let through
    leaves the chat, for every answer of the network whose stream comes
    to an end, be it by its last read or by a read that fails, and
    whenever React renders: [handleSubmit] has not thrown, the transcript
    has grown by exactly the question of the user and one message of the
    assistant, no earlier message is touched, the input is empty, the
    loading flag is down and exactly one request has been made.  (A
    stream of the model has finitely many reads: of a response whose
    reads never settle, on which the loop of the source waits without
    limit, nothing is said here.) *)
Theorem handleSubmit_settles
  (renders : list bool) (st : ChatState) (net : Net) (log : list Request) :
  blocked st = false ->
  pending st = [] ->
  exists st' reply,
    handleSubmit apiClient selectedDocument renders st net log
    = (Ok st', log ++ [stream_request apiClient (stream_query selectedDocument st)])
    /\ messages st'
       = messages st ++ [{| role_ := user; content := input st; sources := None |}; reply]
    /\ role_ reply = assistant
    /\ input st' = [] /\ isLoading st' = false /\ pending st' = [].
Proof.
  intros Hgo Hsettled. unfold handleSubmit. rewrite Hgo. unfold_io.
  pose proof (ApiFacts.queryStream_sends apiClient
                (stream_query selectedDocument st) net log) as Hreq.
  destruct (queryStream _ _ net log) as [started log'] eqn:Hstart.
  cbn [snd] in Hreq. subst log'. fold (stream_request apiClient
                                         (stream_query selectedDocument st)).
  destruct (begin_messages st Hsettled) as (Hbegin & Hnone & _ & Hinput).
  assert (Hend : exists st1 loc1 thrown m1 k1,
            match started with
            | Ok streamGen => for_await renders streamGen fresh_locals (begin st)
            | Throw e => (begin st, fresh_locals, Some e)
            end = (st1, loc1, thrown)
            /\ messages st1
               = (messages st ++ [{| role_ := user; content := input st; sources := None |}])
                 ++ [m1]
            /\ role_ m1 = assistant
            /\ pending st1 = replicate k1 ShowAnswer
            /\ input st1 = []).
  { destruct started as [g|e].
    - destruct (for_await_shape g renders fresh_locals (begin st) _ _ 0%nat
                  Hbegin eq_refl Hnone)
        as (st1 & loc1 & m1 & k1 & Hrun & ? & ? & ? & Hin & _).
      exists st1, loc1, (failure g), m1, k1. rewrite Hin. by repeat split.
    - by exists (begin st), fresh_locals, (Some e),
        {| role_ := assistant; content := []; sources := Some (JArr []) |}, 0%nat. }
  destruct Hend as (st1 & loc1 & thrown & m1 & k1 & -> & Hmsgs & Hrole & Hpend & Hin).
  destruct (finish_shape thrown loc1 st1 _ _ _ Hmsgs Hpend)
    as (Hshown & Hnopend & Hload & Hinput').
  unfold finish in *. eexists _, _. split; [reflexivity|].
  rewrite Hshown, Hnopend, Hload, Hinput', Hin, <- app_assoc.
  repeat split. destruct thrown; [done|]. by destruct (decide _).
Qed.

(** Property X9: every failure of a question is reported in the
    transcript, and in the same way.  Whether the request fails, the
    stream breaks or carries a line that is no JSON, an error event or a
    [null] arrives, or the content of a chunk event or the message of an
    error event has no string to give: the message of the assistant is
    replaced, partial answer and citations included, by the warning
    sign, [" Error: "] and the message of the first failure, which for
    the last two is that of the [TypeError] of the conversion. *)
Theorem handleSubmit_reports_failure
  (renders : list bool) (st : ChatState) (net : Net) (log log' : list Request)
  (started : result gen) (e : exn) :
  blocked st = false ->
  pending st = [] ->
  queryStream apiClient (stream_query selectedDocument st) net log = (started, log') ->
  match started with Ok g => failure g | Throw e' => Some e' end = Some e ->
  exists st',
    handleSubmit apiClient selectedDocument renders st net log = (Ok st', log')
    /\ messages st'
       = messages st
         ++ [{| role_ := user; content := input st; sources := None |}; failure_message e].
Proof.
  intros Hgo Hsettled Hstart Hfail. unfold handleSubmit. rewrite Hgo. unfold_io.
  rewrite Hstart.
  destruct (begin_messages st Hsettled) as (Hbegin & Hnone & _).
  assert (Hend : exists st1 loc1 m1 k1,
            match started with
            | Ok streamGen => for_await renders streamGen fresh_locals (begin st)
            | Throw e => (begin st, fresh_locals, Some e)
            end = (st1, loc1, Some e)
            /\ messages st1
               = (messages st ++ [{| role_ := user; content := input st; sources := None |}])
                 ++ [m1]
            /\ pending st1 = replicate k1 ShowAnswer).
  { destruct started as [g|e'].
    - destruct (for_await_shape g renders fresh_locals (begin st) _ _ 0%nat
                  Hbegin eq_refl Hnone)
        as (st1 & loc1 & m1 & k1 & Hrun & ? & _ & ? & _).
      exists st1, loc1, m1, k1. by rewrite Hrun, Hfail.
    - injection Hfail as ->.
      by exists (begin st), fresh_locals,
        {| role_ := assistant; content := []; sources := Some (JArr []) |}, 0%nat. }
  destruct Hend as (st1 & loc1 & m1 & k1 & -> & Hmsgs & Hpend).
  destruct (finish_shape (Some e) loc1 st1 _ _ _ Hmsgs Hpend) as (Hshown & _).
  unfold finish in Hshown. eexists. split; [reflexivity|].
  by rewrite Hshown, <- app_assoc.
Qed.

(** ** The transcript between events *)

Lemma on_data_registers (data : json) (loc loc' : Locals) (st st' : ChatState) :
  on_data data loc st = Ok (loc', st') -> st' = st \/ st' = setMessages ShowAnswer st.
Proof.
  unfold on_data.
  destruct (get data (lit "type")) as [type|]; cbn [and_then]; [|done].
  destruct (is_string (lit "sources") type).
  { destruct (get data (lit "sources")); cbn [and_then]; [|done].
    intros [= <- <-]. by left. }
  destruct (is_string (lit "chunk") type).
  { destruct (get data (lit "content")) as [c|]; cbn [and_then]; [|done].
    destruct (ToString_value c); cbn [and_then]; [|done].
    intros [= <- <-]. by right. }
  destruct (is_string (lit "error") type).
  { destruct (get data (lit "message")) as [msg|]; cbn [and_then]; [|done].
    by destruct (new_Error msg). }
  intros [= <- <-]. by left.
Qed.

Lemma begin_exchanges (st : ChatState) (n : nat) :
  role_ <$> messages st = exchanges n ->
  Forall (fun u => u = ShowAnswer) (pending st) ->
  role_ <$> messages (begin st) = exchanges (S n)
  /\ pending (begin st) = [] /\ isLoading (begin st) = true.
Proof.
  intros Hroles Hpend. unfold begin.
  cbn [render setMessages setInput setIsLoading messages pending isLoading].
  repeat split. rewrite !foldl_app. cbn [foldl call].
  rewrite <- app_assoc, fmap_app, (calls_keep_exchanges _ _ _ n Hroles Hpend).
  by rewrite exchanges_snoc.
Qed.

Lemma finish_exchanges (thrown : option exn) (loc : Locals) (st : ChatState) (n : nat) :
  role_ <$> messages st = exchanges n ->
  Forall (fun u => u = ShowAnswer) (pending st) ->
  (thrown <> None -> n <> 0%nat) ->
  role_ <$> messages (finish thrown loc st) = exchanges n
  /\ pending (finish thrown loc st) = [] /\ isLoading (finish thrown loc st) = false.
Proof.
  intros Hroles Hpend Hasked. unfold finish.
  destruct thrown as [e|];
    cbn [render on_finally on_catch setIsLoading setMessages messages pending isLoading];
    repeat split.
  - rewrite foldl_app. cbn [foldl]. apply call_keeps_exchanges.
    + by apply calls_keep_exchanges.
    + right. eexists. split; [reflexivity|]. split; [done|]. by apply Hasked.
  - by apply calls_keep_exchanges.
Qed.

(** What holds of the transcript whatever has happened so far. *)
Lemma step_exchanges (net : Net) (s : Session) (a : action) :
  role_ <$> messages (ui s) = exchanges (length (sent s))
  /\ Forall (fun u => u = ShowAnswer) (pending (ui s))
  /\ (isLoading (ui s) = true <-> running s <> None)
  /\ (running s <> None -> sent s <> []) ->
  let s' := step apiClient selectedDocument net s a in
  role_ <$> messages (ui s') = exchanges (length (sent s'))
  /\ Forall (fun u => u = ShowAnswer) (pending (ui s'))
  /\ (isLoading (ui s') = true <-> running s' <> None)
  /\ (running s' <> None -> sent s' <> []).
Proof.
  intros (Hroles & Hpend & Hload & Hasked). cbv zeta. destruct a; cbn [step].
  - done.
  - destruct (blocked (ui s)) eqn:Hgo; [done|].
    pose proof (ApiFacts.queryStream_sends apiClient
                  (stream_query selectedDocument (ui s)) net (sent s)) as Hsent.
    unfold attempt.
    destruct (queryStream _ _ net (sent s)) as [started sent']. cbn [snd] in Hsent.
    subst sent'. cbn [ui running sent]. rewrite length_app. cbn [length].
    rewrite Nat.add_1_r.
    destruct (begin_exchanges (ui s) _ Hroles Hpend) as (-> & -> & ->).
    repeat split; [constructor|done|by destruct (sent s)].
  - destruct (running s) as [[loc g]|] eqn:Hrun; [|by rewrite Hrun].
    assert (Hn : length (sent s) <> 0%nat).
    { destruct (sent s); [|done]. by destruct Hasked. }
    assert (Hend : forall thrown,
              let s' := {| ui := finish thrown loc (ui s); running := None;
                           sent := sent s |} in
              role_ <$> messages (ui s') = exchanges (length (sent s'))
              /\ Forall (fun u => u = ShowAnswer) (pending (ui s'))
              /\ (isLoading (ui s') = true <-> running s' <> None)
              /\ (running s' <> None -> sent s' <> [])).
    { intros thrown. cbn [ui running sent].
      destruct (finish_exchanges thrown loc (ui s) _ Hroles Hpend ltac:(done))
        as (-> & -> & ->).
      repeat split; [constructor|done..]. }
    destruct g as [|data rest|e]; [apply Hend| |apply Hend].
    destruct (on_data data loc (ui s)) as [[loc' st']|e] eqn:Hdata; [|apply Hend].
    cbn [ui running sent].
    assert (Hl : isLoading (ui s) = true) by (by apply Hload).
    assert (Hs : sent s <> []) by (by apply Hasked).
    apply on_data_registers in Hdata as [->| ->].
    + by repeat split.
    + cbn [setMessages messages pending isLoading]. repeat split; try done.
      apply Forall_app. split; [done|]. by apply Forall_singleton.
  - destruct (running s) as [[loc g]|] eqn:Hrun; cbn [ui running sent render
                                                      messages pending isLoading].
    + assert (Hl : isLoading (ui s) = true) by (by apply Hload).
      assert (Hs : sent s <> []) by (by apply Hasked).
      repeat split; try done. by apply calls_keep_exchanges.
    + repeat split; try done; try apply Hload.
      by apply calls_keep_exchanges.
Qed.

(** Property X11: whatever the user and the network do, and whenever
    React renders, the transcript is a sequence of exchanges, a message
    of the user followed by one message of the assistant, as many as
    requests have been made; and the form is disabled exactly while a
    stream is being read. *)
Theorem transcript_of_exchanges (net : Net) (s : Session) :
  reachable apiClient selectedDocument net s ->
  role_ <$> messages (ui s) = exchanges (length (sent s))
  /\ (isLoading (ui s) = true <-> running s <> None).
Proof.
  intros [acts ->].
  enough (Hinv : role_ <$> messages (ui (run apiClient selectedDocument net start acts))
                 = exchanges (length (sent (run apiClient selectedDocument net start acts)))
                 /\ Forall (fun u => u = ShowAnswer)
                      (pending (ui (run apiClient selectedDocument net start acts)))
                 /\ (isLoading (ui (run apiClient selectedDocument net start acts)) = true
                     <-> running (run apiClient selectedDocument net start acts) <> None)
                 /\ (running (run apiClient selectedDocument net start acts) <> None ->
                     sent (run apiClient selectedDocument net start acts) <> [])).
  { by destruct Hinv as (? & _ & ? & _). }
  induction acts as [|a acts IH] using rev_ind.
  - cbn. repeat split; [constructor|done..].
  - unfold run in *. rewrite foldl_snoc. by apply step_exchanges.
Qed.

End Facts.

#[local] Existing Instance Host.host.

(** A question put to the usual server. *)
Lemma handleSubmit_settles_witness :
  exists st' reply,
    handleSubmit Sample.client None [true; false] Sample.asking
      (Sample.server Sample.usual_stream) []
    = (Ok st', [stream_request Sample.client (stream_query None Sample.asking)])
    /\ messages st'
       = [{| role_ := user; content := lit "What is RAG?"; sources := None |}; reply]
    /\ role_ reply = assistant
    /\ input st' = [] /\ isLoading st' = false /\ pending st' = [].
Proof.
  exact (handleSubmit_settles (H := Host.host) Sample.client None [true; false]
           Sample.asking (Sample.server Sample.usual_stream) [] eq_refl eq_refl).
Defined.

(** A question put while no server is running. *)
Lemma handleSubmit_reports_failure_witness :
  exists st',
    handleSubmit Sample.client None [] Sample.asking Sample.unreachable []
    = (Ok st', [stream_request Sample.client (stream_query None Sample.asking)])
    /\ messages st'
       = [{| role_ := user; content := lit "What is RAG?"; sources := None |};
          failure_message Sample.network_error].
Proof.
  exact (handleSubmit_reports_failure (H := Host.host) Sample.client None []
           Sample.asking Sample.unreachable []
           [stream_request (H := Host.host) Sample.client
              (stream_query None Sample.asking)]
           (Throw Sample.network_error) Sample.network_error
           eq_refl eq_refl eq_refl eq_refl).
Defined.

(** A stream that carries sources and no answer. *)
Lemma handleSubmit_without_chunk_witness :
  exists st',
    handleSubmit Sample.client None [true] Sample.asking
      (Sample.server Sample.no_answer) []
    = (Ok st', [stream_request Sample.client (stream_query None Sample.asking)])
    /\ messages st'
       = [{| role_ := user; content := lit "What is RAG?"; sources := None |};
          {| role_ := assistant; content := []; sources := Some (JArr []) |}].
Proof.
  exact (handleSubmit_without_chunk (H := Host.host) Sample.client None [true]
           Sample.asking (Sample.server Sample.no_answer) []
           [stream_request (H := Host.host) Sample.client
              (stream_query None Sample.asking)]
           Sample.no_answer eq_refl eq_refl ltac:(vm_compute; reflexivity)
           eq_refl eq_refl).
Defined.

(** The usual stream, taken in one run and value by value. *)
Lemma handleSubmit_event_by_event_witness :
  let net := Sample.server Sample.usual_stream in
  exists n,
    handleSubmit Sample.client None [true] Sample.asking net []
    = (Ok (ui (run Sample.client None net
                   {| ui := Sample.asking; running := None; sent := [] |}
                   (Submit :: arrivals [true] n))),
       sent (run Sample.client None net
                 {| ui := Sample.asking; running := None; sent := [] |}
                 (Submit :: arrivals [true] n))).
Proof.
  exact (handleSubmit_event_by_event (H := Host.host) Sample.client None [true]
           Sample.asking (Sample.server Sample.usual_stream) [] eq_refl).
Defined.

(** Two questions, the second one still being answered. *)
Lemma transcript_of_exchanges_witness :
  let net := Sample.server Sample.usual_stream in
  let s := run Sample.client None net start
             [Change (lit "What is RAG?"); Submit; Tick; Tick; Render; Tick; Tick; Tick;
              Change (lit "And BM25?"); Submit; Tick] in
  role_ <$> messages (ui s) = [user; assistant; user; assistant]
  /\ (isLoading (ui s) = true <-> running s <> None).
Proof.
  intros net s.
  destruct (transcript_of_exchanges (H := Host.host) Sample.client None net s)
    as (Hroles & Hload).
  { eexists. reflexivity. }
  split; [exact Hroles|exact Hload].
Defined.

End ChatBehaviour.

(* ===================================================================== *)
(** * More on the uploader: what the user is told *)
(* ===================================================================== *)

Module UploaderBehaviour.
Import JS Http Api Uploader Spec JSFacts ApiFacts.

Section Facts.
Context `{Platform}.
Variable apiClient : APIClient.
Variable onUploadSuccess : bool.

Lemma uploadDocument_sends (file : File) (net : Net) (log : list Request) :
  snd (uploadDocument apiClient file net log) = log ++ [upload_request apiClient file].
Proof.
  unfold uploadDocument. unfold_io. unfold upload_request.
  destruct (net log _) as [response|e]; [|reflexivity].
  destruct (ok response); cbn [negb]; [reflexivity|].
  by rewrite fail_with_failure_of.
Qed.

(** [handleFile] never throws, leaves the dragging state alone and
    makes the upload request if it accepts the file, none if not. *)
Lemma handleFile_outcome (file : File) (st : UploaderState) (net : Net)
  (log : list Request) :
  exists st',
    handleFile apiClient onUploadSuccess file st net log
    = (Ok st', log ++ if accepted file then [upload_request apiClient file] else [])
    /\ isDragging st' = isDragging st.
Proof.
  unfold handleFile. destruct (accepted file); cbn [negb].
  - unfold upload_and_report. unfold_io.
    pose proof (uploadDocument_sends file net log) as Hsent.
    destruct (uploadDocument apiClient file net log) as [[result|e] log'];
      cbn [snd] in Hsent; subst log'.
    + destruct (get result (lit "filename")) as [filename|];
        [|eexists; split; reflexivity].
      destruct (ToString_value filename); [|eexists; split; reflexivity].
      destruct (get result (lit "chunks_created")) as [chunks_created|];
        [|eexists; split; reflexivity].
      destruct (ToString_value chunks_created); [|eexists; split; reflexivity].
      eexists. split; [reflexivity|]. by destruct onUploadSuccess.
    + eexists. split; reflexivity.
  - rewrite app_nil_r. eexists. split; reflexivity.
Qed.

(** Property X16: when the upload succeeds and the name and the
    number of chunks on the receipt have a string to give, the status
    line shows the tick, that name and that number; the refresh of the
    parent is scheduled 1500 ms later, once, if the parent asked for it;
    the spinner is off. *)
Theorem handleFile_reports_success
  (file : File) (st : UploaderState) (net : Net) (log log' : list Request)
  (receipt : json) (filename chunks_created : jsstring) :
  accepted file = true ->
  uploadDocument apiClient file net log = (Ok receipt, log') ->
  receipt <> JNull ->
  ToString_value (field "filename" receipt) = Ok filename ->
  ToString_value (field "chunks_created" receipt) = Ok chunks_created ->
  handleFile apiClient onUploadSuccess file st net log
  = (Ok {| isDragging := isDragging st;
           uploading := false;
           uploadStatus :=
             {| type_ := Some success;
                message_ := [0x2713] ++ lit " " ++ filename
                            ++ lit " uploaded " ++ [0x2022] ++ lit " "
                            ++ chunks_created ++ lit " chunks indexed" |};
           timeouts := timeouts st ++ if onUploadSuccess then [1500] else [] |},
     log').
Proof.
  intros Hyes Hup Hobj Hname Hcount. unfold handleFile, upload_and_report.
  rewrite Hyes. cbn [negb]. unfold_io. rewrite Hup.
  rewrite !ChatFacts.get_field by done. rewrite Hname, Hcount.
  destruct onUploadSuccess; [reflexivity|].
  cbn [setUploading setUploadStatus isDragging timeouts]. by rewrite app_nil_r.
Qed.

(** Property X17: when the upload fails, for whatever reason (no
    network, a refusal of the server, a body that is no JSON), the status
    line shows the cross and the message of the exception, or
    ["Upload failed"] if that message is empty; no refresh is scheduled
    and the spinner is off. *)
Theorem handleFile_reports_failure
  (file : File) (st : UploaderState) (net : Net) (log log' : list Request) (e : exn) :
  accepted file = true ->
  uploadDocument apiClient file net log = (Throw e, log') ->
  handleFile apiClient onUploadSuccess file st net log
  = (Ok {| isDragging := isDragging st;
           uploading := false;
           uploadStatus :=
             {| type_ := Some error;
                message_ := [0x2715] ++ lit " "
                            ++ if bool_decide (message e = [])
                               then lit "Upload failed" else message e |};
           timeouts := timeouts st |},
     log').
Proof.
  intros Hyes Hup. unfold handleFile, upload_and_report.
  rewrite Hyes. cbn [negb]. unfold_io. rewrite Hup.
  unfold js_or. cbn [truthy]. by case_bool_decide.
Qed.

(** Property X18: of the files dropped on the page, or chosen in the
    dialog, only the first is looked at: it is uploaded if it is
    accepted, the others are ignored without a word.  Neither handler
    throws, and a drop ends the dragging state. *)
Theorem only_first_file_uploaded
  (files : list File) (st : UploaderState) (net : Net) (log : list Request) :
  let sent := match files with
              | file :: _ => if accepted file then [upload_request apiClient file] else []
              | [] => []
              end in
  (exists st',
      handleDrop apiClient onUploadSuccess files st net log = (Ok st', log ++ sent)
      /\ isDragging st' = false)
  /\ (exists st',
         handleFileInput apiClient onUploadSuccess (Some files) st net log
         = (Ok st', log ++ sent)
         /\ isDragging st' = isDragging st).
Proof.
  destruct files as [|file files]; cbn zeta.
  - rewrite app_nil_r. split; eexists; split; reflexivity.
  - split; cbn [handleDrop handleFileInput].
    + destruct (handleFile_outcome file (setIsDragging false st) net log)
        as (st' & -> & Hdrag).
      by exists st'.
    + destruct (handleFile_outcome file st net log) as (st' & -> & Hdrag).
      by exists st'.
Qed.

End Facts.

#[local] Existing Instance Host.host.

(** A picture is turned away. *)
Lemma handleFile_rejects_witness :
  let picture := {| name := lit "photo.png"; content_bytes := [] |} in
  exists st',
    handleFile Sample.client true picture Uploader.initial Sample.upload_server []
    = (Ok st', [])
    /\ type_ (uploadStatus st') = Some error
    /\ uploading st' = false.
Proof.
  intros picture.
  exact (UploaderFacts.handleFile_rejects (H := Host.host) Sample.client true picture
           Uploader.initial Sample.upload_server [] ltac:(vm_compute; reflexivity)).
Defined.

(** A text file is sent. *)
Lemma handleFile_uploads_once_witness :
  exists st',
    handleFile Sample.client true Sample.notes Uploader.initial Sample.upload_server []
    = (Ok st', [upload_request Sample.client Sample.notes])
    /\ uploading st' = false.
Proof.
  exact (UploaderFacts.handleFile_uploads_once (H := Host.host) Sample.client true
           Sample.notes Uploader.initial Sample.upload_server []
           ltac:(vm_compute; reflexivity)).
Defined.

Lemma accepted_dotted_witness :
  accepted Sample.notes = supported Sample.notes.
Proof.
  apply (UploaderFacts.accepted_dotted (H := Host.host) Sample.notes).
  refine (bool_decide_unpack _ _). vm_compute. reflexivity.
Defined.

(** The receipt of the server on the status line. *)
Lemma handleFile_reports_success_witness :
  uploadStatus
    (match fst (handleFile Sample.client true Sample.notes Uploader.initial
                  Sample.upload_server []) with
     | Ok st' => st'
     | Throw _ => Uploader.initial
     end)
  = {| type_ := Some success;
       message_ := [0x2713] ++ lit " pdf uploaded " ++ [0x2022] ++ lit " 0 chunks indexed" |}.
Proof.
  rewrite (handleFile_reports_success (H := Host.host) Sample.client true Sample.notes
             Uploader.initial Sample.upload_server []
             [upload_request Sample.client Sample.notes] Sample.upload_receipt
             (lit "pdf") (lit "0")
             ltac:(vm_compute; reflexivity) ltac:(vm_compute; reflexivity)
             ltac:(discriminate) eq_refl eq_refl).
  vm_compute. reflexivity.
Defined.

(** The refusal of the server on the status line. *)
Lemma handleFile_reports_failure_witness :
  uploadStatus
    (match fst (handleFile Sample.client true Sample.notes Uploader.initial
                  (answering Sample.refusal) []) with
     | Ok st' => st'
     | Throw _ => Uploader.initial
     end)
  = {| type_ := Some error;
       message_ := [0x2715] ++ lit " Unsupported file type" |}.
Proof.
  rewrite (handleFile_reports_failure (H := Host.host) Sample.client true Sample.notes
             Uploader.initial (answering Sample.refusal) []
             [upload_request Sample.client Sample.notes]
             (Error (lit "Unsupported file type"))
             ltac:(vm_compute; reflexivity) ltac:(vm_compute; reflexivity)).
  vm_compute. reflexivity.
Defined.

End UploaderBehaviour.

(* ===================================================================== *)
(** * The document manager: loading, deleting, selecting *)
(* ===================================================================== *)

Module ManagerBehaviour.
Import JS Http Api Manager Spec JSFacts ApiFacts.

Section Facts.
Context `{Platform}.
Variable apiClient : APIClient.
Variable onDocumentSelect : bool.
Variable confirm : jsstring -> bool.

Lemma listDocuments_sends (net : Net) (log : list Request) :
  snd (listDocuments apiClient net log) = log ++ [list_request apiClient].
Proof.
  unfold listDocuments. unfold_io. unfold list_request.
  destruct (net log _) as [response|e]; [|reflexivity].
  destruct (ok response); cbn [negb]; [reflexivity|].
  by rewrite fail_with_failure_of.
Qed.

(** [loadDocuments] in terms of the outcome of [listDocuments]. *)
Lemma loadDocuments_outcome (st : ManagerState) (net : Net) (log : list Request) :
  loadDocuments apiClient st net log
  = (Ok (setLoading false
           match and_then (fst (listDocuments apiClient net log))
                          (fun result => get result (lit "documents")) with
           | Ok docs => setDocuments docs (setLoading true st)
           | Throw error => console_error error (setLoading true st)
           end),
     log ++ [list_request apiClient]).
Proof.
  unfold loadDocuments. unfold_io.
  pose proof (listDocuments_sends net log) as Hsent.
  destruct (listDocuments apiClient net log) as [[result|e] log'];
    cbn [fst snd and_then] in *; subst log'; [|reflexivity].
  by destruct (get result (lit "documents")).
Qed.


(** Property X20: the list on display after a load is whatever the
    answer of the server has under [documents], be it no array or
    nothing at all; an answer with a status that is not ok shows nothing
    new and its failure, as [listDocuments] throws it ([failure_of]: the
    [Error] with the detail or the fallback, or the exception of the
    reader, of the property access or of the conversion of the detail to
    a string), goes to the console only. *)
Theorem loadDocuments_shows_answer
  (st : ManagerState) (net : Net) (log : list Request) (response : Response) :
  net log (list_request apiClient) = Ok response ->
  exists st',
    fst (loadDocuments apiClient st net log) = Ok st'
    /\ match ok response, json_ response with
       | true, Ok (JObj props) =>
           documents st' = own_property (lit "documents") props
           /\ console_errors st' = console_errors st
       | true, Ok JNull =>
           documents st' = documents st
           /\ console_errors st'
              = console_errors st ++ [null_property_error (lit "documents")]
       | true, Ok _ =>
           documents st' = None /\ console_errors st' = console_errors st
       | true, Throw e =>
           documents st' = documents st
           /\ console_errors st' = console_errors st ++ [e]
       | false, _ =>
           documents st' = documents st
           /\ console_errors st'
              = console_errors st ++ [failure_of response "Failed to list documents"]
       end.
Proof.
  intros Hnet. rewrite loadDocuments_outcome. eexists. split; [reflexivity|].
  unfold listDocuments. unfold_io. fold (list_request apiClient). rewrite Hnet.
  destruct (ok response); cbn [negb].
  - cbn [fst]. destruct (json_ response) as [[]|e]; by cbn.
  - rewrite fail_with_failure_of. by cbn.
Qed.

(** Property X21: a deletion that succeeds is followed by one reload
    of the list; the selection is cleared, and the parent told so,
    exactly when the deleted document was the selected one. *)
Theorem handleDelete_reloads
  (filename : jsstring) (st : ManagerState) (net : Net) (log log' : list Request)
  (deleted : json) :
  confirm (lit "Delete " ++ filename ++ lit "?") = true ->
  deleteDocument apiClient filename net log = (Ok deleted, log') ->
  exists st',
    handleDelete apiClient onDocumentSelect confirm filename st net log
    = (Ok st', log' ++ [list_request apiClient])
    /\ loading st' = false
    /\ alerts st' = alerts st
    /\ selectedDoc st'
       = (if bool_decide (selectedDoc st = Some filename) then None else selectedDoc st)
    /\ notified st'
       = notified st
         ++ (if onDocumentSelect && bool_decide (selectedDoc st = Some filename)
             then [None] else []).
Proof.
  intros Hyes Hdel. unfold handleDelete. rewrite Hyes. cbn [negb].
  unfold attempt, bind at 1 2. rewrite Hdel.
  unfold bind at 1. rewrite loadDocuments_outcome. unfold ret.
  eexists. split; [reflexivity|].
  destruct (and_then _ _) as [docs|error];
    case_bool_decide; unfold notify; destruct onDocumentSelect;
    cbn; rewrite ?app_nil_r; done.
Qed.

(** Property X22: a deletion that fails, before or after its request,
    is reported in an alert with the message of the failure; the list is
    not reloaded and list and selection stay as they are. *)
Theorem handleDelete_alerts
  (filename : jsstring) (st : ManagerState) (net : Net) (log log' : list Request)
  (e : exn) :
  confirm (lit "Delete " ++ filename ++ lit "?") = true ->
  deleteDocument apiClient filename net log = (Throw e, log') ->
  handleDelete apiClient onDocumentSelect confirm filename st net log
  = (Ok {| documents := documents st; loading := loading st;
           selectedDoc := selectedDoc st; console_errors := console_errors st;
           alerts := alerts st ++ [lit "Failed to delete: " ++ message e];
           notified := notified st |},
     log').
Proof.
  intros Hyes Hdel. unfold handleDelete. rewrite Hyes. cbn [negb].
  unfold attempt, bind at 1 2. by rewrite Hdel.
Qed.

(** Property X23: a click on a document that is not the selected one
    selects it, whatever was selected before, and a second click on it
    leaves no document selected; the parent hears of both. *)
Theorem onClick_twice (filename : jsstring) (st : ManagerState) :
  selectedDoc st <> Some filename ->
  selectedDoc (onClick onDocumentSelect filename st) = Some filename
  /\ selectedDoc (onClick onDocumentSelect filename
                    (onClick onDocumentSelect filename st)) = None
  /\ notified (onClick onDocumentSelect filename
                 (onClick onDocumentSelect filename st))
     = notified st ++ (if onDocumentSelect then [Some filename; None] else []).
Proof.
  intros Hother. unfold onClick, handleSelect, notify.
  rewrite (bool_decide_eq_false_2 _ Hother).
  destruct onDocumentSelect; cbn; rewrite bool_decide_eq_true_2 by done;
    cbn; by rewrite <- ?app_assoc, ?app_nil_r.
Qed.

End Facts.

#[local] Existing Instance Host.host.

(** An answer without a [documents] property. *)
Lemma loadDocuments_shows_answer_witness :
  exists st',
    fst (loadDocuments Sample.client Manager.initial Sample.upload_server []) = Ok st'
    /\ documents st' = None
    /\ console_errors st' = [].
Proof.
  exact (loadDocuments_shows_answer (H := Host.host) Sample.client Manager.initial
           Sample.upload_server []
           {| ok := true; json_ := Ok Sample.upload_receipt; body_ := None |} eq_refl).
Defined.

(** The selected document is deleted. *)
Lemma handleDelete_reloads_witness :
  let st := onClick true (lit "notes.txt") Manager.initial in
  exists st',
    handleDelete Sample.client true (fun _ => true) (lit "notes.txt") st
      Sample.upload_server []
    = (Ok st', [delete_request Sample.client (lit "notes.txt");
                list_request Sample.client])
    /\ loading st' = false
    /\ alerts st' = []
    /\ selectedDoc st' = None
    /\ notified st' = [Some (lit "notes.txt"); None].
Proof.
  intros st.
  exact (handleDelete_reloads (H := Host.host) Sample.client true (fun _ => true)
           (lit "notes.txt") st Sample.upload_server []
           [delete_request Sample.client (lit "notes.txt")] Sample.upload_receipt
           eq_refl ltac:(vm_compute; reflexivity)).
Defined.

(** A deletion while no server is running. *)
Lemma handleDelete_alerts_witness :
  handleDelete Sample.client true (fun _ => true) (lit "notes.txt") Manager.initial
    Sample.unreachable []
  = (Ok (alert (lit "Failed to delete: Failed to fetch") Manager.initial),
     [delete_request Sample.client (lit "notes.txt")]).
Proof.
  exact (handleDelete_alerts (H := Host.host) Sample.client true (fun _ => true)
           (lit "notes.txt") Manager.initial Sample.unreachable []
           [delete_request Sample.client (lit "notes.txt")] Sample.network_error
           eq_refl ltac:(vm_compute; reflexivity)).
Defined.

Lemma onClick_twice_witness :
  let st := onClick true (lit "a.md") Manager.initial in
  selectedDoc (onClick true (lit "b.md") st) = Some (lit "b.md")
  /\ selectedDoc (onClick true (lit "b.md") (onClick true (lit "b.md") st)) = None
  /\ notified (onClick true (lit "b.md") (onClick true (lit "b.md") st))
     = [Some (lit "a.md"); Some (lit "b.md"); None].
Proof.
  intros st.
  exact (onClick_twice true (lit "b.md") st ltac:(vm_compute; discriminate)).
Defined.

End ManagerBehaviour.

(* ===================================================================== *)
(** * The page: sidebar, uploader and chat together *)
(* ===================================================================== *)

Module HomeBehaviour.
Import JS Http Api Home Spec JSFacts ApiFacts.

Section Facts.
Context `{Platform}.
Variable apiClient : APIClient.
Variable confirm : jsstring -> bool.

(** What the page hears of a manager that has called its parent once
    more, or not at all. *)
Lemma deliver_one (before after : Manager.ManagerState) (sel : option jsstring)
  (st : HomeState) :
  Manager.notified after = Manager.notified before ++ [sel] ->
  deliver before after st = setSelectedDocument sel st.
Proof.
  intros Hcalls. unfold deliver. by rewrite Hcalls, drop_app_length.
Qed.

Lemma deliver_none (before after : Manager.ManagerState) (st : HomeState) :
  Manager.notified after = Manager.notified before ->
  deliver before after st = st.
Proof.
  intros Hcalls. unfold deliver. by rewrite Hcalls, drop_all.
Qed.

Lemma click_selects (filename : jsstring) (p : Page) :
  Manager.selectedDoc (manager (click filename p))
  = Manager.handleSelect (Manager.selectedDoc (manager p)) filename
  /\ selectedDocument (home (click filename p))
     = Manager.handleSelect (Manager.selectedDoc (manager p)) filename.
Proof.
  unfold click. cbn [home manager]. split; [reflexivity|].
  by rewrite (deliver_one _ _ (Manager.handleSelect (Manager.selectedDoc (manager p))
                                 filename)).
Qed.

(** [deleteDocument] followed by the reload, as [handleDelete] runs
    them. *)
Lemma delete_outcome (filename : jsstring) (p : Page) (net : Net) (log : list Request) :
  exists after,
    fst (delete apiClient confirm filename p net log)
    = Ok {| home := deliver (manager p) after (home p); manager := after |}
    /\ (Manager.selectedDoc after = Manager.selectedDoc (manager p)
        /\ Manager.notified after = Manager.notified (manager p)
        \/ Manager.selectedDoc after = None
           /\ Manager.notified after = Manager.notified (manager p) ++ [None]).
Proof.
  unfold delete, Manager.handleDelete.
  destruct (confirm _); cbn [negb].
  2:{ unfold_io. eexists. split; [reflexivity|]. by left. }
  unfold attempt, bind at 1 2 3.
  destruct (deleteDocument apiClient filename net log) as [[deleted|e] log'].
  2:{ unfold ret. eexists. split; [reflexivity|]. by left. }
  unfold bind at 1.
  rewrite ManagerBehaviour.loadDocuments_outcome. unfold ret, bind.
  eexists. split; [reflexivity|].
  destruct (and_then _ _); case_bool_decide; cbn; (by left) || (by right).
Qed.

(** Property X24: the sidebar and the page never disagree on the
    selected document as long as the user clicks and deletes: both
    handlers keep the two selections equal, and a deletion never
    throws. *)
Theorem selection_in_step (filename : jsstring) (p : Page) (net : Net)
  (log : list Request) :
  in_step p ->
  in_step (click filename p)
  /\ exists p', fst (delete apiClient confirm filename p net log) = Ok p' /\ in_step p'.
Proof.
  unfold in_step. intros Hsame. split.
  - destruct (click_selects filename p) as [-> ->]. reflexivity.
  - destruct (delete_outcome filename p net log)
      as (after & -> & [[Hsel Hcalls]|[Hsel Hcalls]]);
      eexists; (split; [reflexivity|]); cbn [home manager].
    + by rewrite (deliver_none _ _ _ Hcalls), Hsel.
    + by rewrite (deliver_one _ _ None _ Hcalls), Hsel.
Qed.

(** Property X25: after an upload the page closes the uploader and
    mounts a new manager, which asks for the list once and has no
    document selected; the page keeps its own selection, so that the
    chat goes on asking about a document the sidebar no longer marks. *)
Theorem uploaded_remounts (p : Page) (net : Net) (log : list Request) :
  exists p',
    uploaded apiClient p net log = (Ok p', log ++ [list_request apiClient])
    /\ Manager.selectedDoc (manager p') = None
    /\ selectedDocument (home p') = selectedDocument (home p)
    /\ showUploader (home p') = false
    /\ refreshKey (home p') = refreshKey (home p) + 1
    /\ (in_step p' <-> selectedDocument (home p) = None).
Proof.
  unfold uploaded, Manager.mount. unfold bind at 1.
  rewrite ManagerBehaviour.loadDocuments_outcome. unfold ret.
  eexists. split; [reflexivity|]. unfold in_step. cbn [home manager].
  destruct (and_then _ _); cbn; repeat split; congruence.
Qed.

Lemma handleSubmit_sends (sel : option jsstring) (renders : list bool)
  (st : Chat.ChatState) (net : Net) (log : list Request) :
  Chat.blocked st = false ->
  snd (Chat.handleSubmit apiClient sel renders st net log)
  = log ++ [stream_request apiClient (Chat.stream_query sel st)].
Proof.
  intros Hgo. unfold Chat.handleSubmit. rewrite Hgo. unfold_io.
  pose proof (queryStream_sends apiClient (Chat.stream_query sel st) net log) as Hsent.
  destruct (queryStream _ _ net log) as [[g|e] log']; cbn [snd] in Hsent; subst log'.
  - by destruct (Chat.for_await renders g Chat.fresh_locals (Chat.begin st)) as [[? ?] ?].
  - reflexivity.
Qed.

(** Property X26: the chat asks about the document the sidebar marks.
    After a click on a document, the next question goes out with that
    document as [filename], or without any if the click cleared the
    selection, together with the text of the input, [top_k] 5 and
    [stream] true. *)
Theorem click_then_ask (filename : jsstring) (p : Page) (renders : list bool)
  (st : Chat.ChatState) (net : Net) (log : list Request) :
  Chat.blocked st = false ->
  snd (Chat.handleSubmit apiClient (selectedDocument (home (click filename p)))
         renders st net log)
  = log ++ [stream_request apiClient
              {| query_ := Chat.input st; top_k := Some 5;
                 Api.filename :=
                   if bool_decide (Manager.selectedDoc (manager p) = Some filename)
                   then None else Some filename;
                 stream := Some true |}].
Proof.
  intros Hgo. rewrite (handleSubmit_sends _ _ _ _ _ Hgo).
  by destruct (click_selects filename p) as [_ ->].
Qed.

End Facts.

#[local] Existing Instance Host.host.

(** A document is selected, then deleted. *)
Lemma selection_in_step_witness :
  let p := click (lit "notes.txt") {| home := Home.initial; manager := Manager.initial |} in
  in_step (click (lit "notes.txt") p)
  /\ exists p',
       fst (delete Sample.client (fun _ => true) (lit "notes.txt") p
              Sample.upload_server []) = Ok p'
       /\ in_step p'.
Proof.
  intros p.
  exact (selection_in_step (H := Host.host) Sample.client (fun _ => true)
           (lit "notes.txt") p Sample.upload_server [] eq_refl).
Defined.

(** A question about a document just selected. *)
Lemma click_then_ask_witness :
  let p := click (lit "notes.txt") {| home := Home.initial; manager := Manager.initial |} in
  snd (Chat.handleSubmit Sample.client (selectedDocument (home p)) [] Sample.asking
         (Sample.server Sample.usual_stream) [])
  = [stream_request Sample.client
       {| query_ := lit "What is RAG?"; top_k := Some 5;
          Api.filename := Some (lit "notes.txt"); stream := Some true |}].
Proof.
  intros p.
  exact (click_then_ask (H := Host.host) Sample.client (lit "notes.txt")
           {| home := Home.initial; manager := Manager.initial |} []
           Sample.asking (Sample.server Sample.usual_stream) [] eq_refl).
Defined.

End HomeBehaviour.
